(** * Telemetry core of the tacho dashboard: parser, store, client, poller

    A shallow embedding of [app/telemetry.py] and [app/config.py].

    Conventions of the embedding.
    - Python [str] values that the code scans character by character are
      [text] (lists of [ascii]); dictionary keys are [string].
    - Python [float] values are idealised as exact rationals ([Q]); the
      statements below only rely on order and on exactly representable
      values.
    - Python dictionaries that are shared and mutated in place live in an
      explicit heap of dictionary objects.
    - Exceptions are values of [exn]; code that can raise returns
      [result]. *)

From Stdlib Require Import Ascii String QArith Qround Qminmax Lqa.
From stdpp Require Import gmap strings list fin_maps.

Local Open Scope Z_scope.
Local Open Scope list_scope.

(** ** Text primitives (the [str] methods the code calls) *)

Module Text.

Abbreviation text := (list ascii).

Definition of_string (s : string) : text := list_ascii_of_string s.

Definition CR : ascii := ascii_of_nat 13.
Definition LF : ascii := ascii_of_nat 10.

Definition code (c : ascii) : Z := Z.of_nat (nat_of_ascii c).

Definition eqc (a b : ascii) : bool := Ascii.eqb a b.

(** [str.isspace] on one ASCII character: TAB, LF, VT, FF, CR,
    FS, GS, RS, US and the blank. *)
Definition isspace (c : ascii) : bool :=
  let n := code c in
  ((9 <=? n) && (n <=? 13)) || ((28 <=? n) && (n <=? 31)) || (n =? 32).

Definition is_digit (c : ascii) : bool :=
  let n := code c in (48 <=? n) && (n <=? 57).

Definition is_lower (c : ascii) : bool :=
  let n := code c in (97 <=? n) && (n <=? 122).

Definition is_upper (c : ascii) : bool :=
  let n := code c in (65 <=? n) && (n <=? 90).

Definition upper_char (c : ascii) : ascii :=
  if is_lower c then ascii_of_nat (nat_of_ascii c - 32) else c.

Definition lower_char (c : ascii) : ascii :=
  if is_upper c then ascii_of_nat (nat_of_ascii c + 32) else c.

(** [s.upper()] and [s.lower()] *)
Definition upper (s : text) : text := map upper_char s.
Definition lower (s : text) : text := map lower_char s.

(** [s.replace(a, b)] for one-character [a] and [b] *)
Definition replace_char (a b : ascii) (s : text) : text :=
  map (fun c => if eqc c a then b else c) s.

(** [s.replace(a, "")] for a one-character [a] *)
Definition remove_char (a : ascii) (s : text) : text :=
  List.filter (fun c => negb (eqc c a)) s.

(** [a in s] for a one-character [a] *)
Definition contains (a : ascii) (s : text) : bool :=
  existsb (eqc a) s.

(** [s.lstrip()], [s.rstrip()], [s.strip()] *)
Fixpoint lstrip (s : text) : text :=
  match s with
  | c :: r => if isspace c then lstrip r else s
  | [] => []
  end.

Definition rstrip (s : text) : text := rev (lstrip (rev s)).

Definition strip (s : text) : text := rstrip (lstrip s).

(** [s.split(sep)] for a one-character separator: always at least one
    piece, empty pieces kept. *)
Fixpoint split_on (sep : ascii) (s : text) : list text :=
  match s with
  | [] => [[]]
  | c :: r =>
      if eqc c sep then [] :: split_on sep r
      else match split_on sep r with
           | l :: ls => (c :: l) :: ls
           | [] => [[c]]
           end
  end.

(** [s.split()]: pieces separated by runs of white space, no empty
    piece.  [cur] is the piece being read, reversed. *)
Fixpoint split_ws_aux (cur : text) (s : text) : list text :=
  match s with
  | [] => match cur with [] => [] | _ => [rev cur] end
  | c :: r =>
      if isspace c
      then match cur with
           | [] => split_ws_aux [] r
           | _ => rev cur :: split_ws_aux [] r
           end
      else split_ws_aux (c :: cur) r
  end.

Definition split_ws (s : text) : list text := split_ws_aux [] s.

(** [s.startswith(p)] *)
Fixpoint startswith (p s : text) : bool :=
  match p, s with
  | [], _ => true
  | a :: p', b :: s' => eqc a b && startswith p' s'
  | _ :: _, [] => false
  end.

Fixpoint eqt (a b : text) : bool :=
  match a, b with
  | [], [] => true
  | x :: a', y :: b' => eqc x y && eqt a' b'
  | _, _ => false
  end.

(** [s[:n]] and [s[n:]] are [take n s] and [drop n s]. *)

End Text.

Import Text.

(** ** Exceptions and results *)

Inductive exn : Type :=
  | ConnectionError (msg : string)
  | TimeoutError
  | ValueError
  | KeyError (key : string)
  | IndexError
  | AssertionError
  | UnicodeEncodeError.

Inductive result (A : Type) : Type :=
  | Ok (a : A)
  | Err (e : exn).
Arguments Ok {A} a.
Arguments Err {A} e.


(** ** The builtins [int(s, base)] and [format(n, "02X")] *)

Module Builtins.

Definition digit_value (c : ascii) : option Z :=
  if is_digit c then Some (code c - 48)
  else if is_lower c then Some (code c - 97 + 10)
  else if is_upper c then Some (code c - 65 + 10)
  else None.

Definition underscore : ascii := "_"%char.

(** Digits of an integer literal: single underscores are allowed between
    digits only.  [prev] is the character read before, if any. *)
Fixpoint int_digits (base : Z) (prev : option ascii) (acc : Z) (s : text)
  : option Z :=
  match s with
  | [] =>
      match prev with
      | None => None
      | Some p => if eqc p underscore then None else Some acc
      end
  | c :: r =>
      if eqc c underscore then
        match prev with
        | None => None
        | Some p => if eqc p underscore then None
                    else int_digits base (Some c) acc r
        end
      else
        match digit_value c with
        | Some d => if d <? base
                    then int_digits base (Some c) (acc * base + d) r
                    else None
        | None => None
        end
  end.

(** After the sign, base 16 accepts a [0x] or [0X] prefix, and one
    underscore right after it. *)
Definition skip_prefix (base : Z) (s : text) : text :=
  match s with
  | z :: x :: r =>
      if (base =? 16) && eqc z "0"%char && (eqc x "x"%char || eqc x "X"%char)
      then match r with
           | u :: r' => if eqc u underscore then r' else r
           | [] => r
           end
      else s
  | _ => s
  end.

(** [int(s, base)] for base 10 or 16; [None] is [ValueError]. *)
Definition py_int (base : Z) (s : text) : option Z :=
  match strip s with
  | c :: r =>
      if eqc c "-"%char then Z.opp <$> int_digits base None 0 (skip_prefix base r)
      else if eqc c "+"%char then int_digits base None 0 (skip_prefix base r)
      else int_digits base None 0 (skip_prefix base (c :: r))
  | [] => None
  end.

Definition hex_digit (d : Z) : ascii :=
  if d <? 10 then ascii_of_nat (Z.to_nat (48 + d))
  else ascii_of_nat (Z.to_nat (65 + d - 10)).

(** Upper-case hexadecimal digits of [n >= 0], most significant first;
    [fuel] bounds the number of digits. *)
Fixpoint hex_digits (fuel : nat) (n : Z) (acc : text) : text :=
  match fuel with
  | O => acc
  | S f =>
      let acc' := hex_digit (n mod 16) :: acc in
      if n / 16 =? 0 then acc' else hex_digits f (n / 16) acc'
  end.

Definition hex_upper (n : Z) : text :=
  hex_digits (S (Z.to_nat (Z.log2 n))) n [].

(** [f"{n:02X}"]: zero padded to two characters, sign included. *)
Definition format_02X (n : Z) : text :=
  if n <? 0 then "-"%char :: hex_upper (- n)
  else match hex_upper n with
       | [d] => ["0"%char; d]
       | ds => ds
       end.

(** [max(a, b)] and [min(a, b)] on numbers: the first argument wins a
    tie. *)
Definition py_max (a b : Q) : Q :=
  match (b ?= a)%Q with Gt => b | _ => a end.

Definition py_min (a b : Q) : Q :=
  match (b ?= a)%Q with Lt => b | _ => a end.

(** Nearest integer, ties to the even one. *)
Definition round_half_even (x : Q) : Z :=
  let f := Qfloor x in
  match (x - inject_Z f ?= 1 # 2)%Q with
  | Lt => f
  | Gt => f + 1
  | Eq => if Z.even f then f else f + 1
  end.

(** [round(x, ndigits)] *)
Definition py_round (x : Q) (ndigits : nat) : Q :=
  let scale := inject_Z (10 ^ Z.of_nat ndigits) in
  (inject_Z (round_half_even (x * scale)) / scale)%Q.

(** A Python [float]: a number, an infinity or a NaN. *)
Inductive pyfloat : Type :=
  | FNum (q : Q)
  | FInf (negative : bool)
  | FNan.

Fixpoint span_digits (s : text) : text * text :=
  match s with
  | c :: r =>
      if is_digit c
      then let '(ds, rest) := span_digits r in (c :: ds, rest)
      else ([], s)
  | [] => ([], [])
  end.

Definition dec_value (ds : text) : Z :=
  fold_left (fun acc c => acc * 10 + (code c - 48)) ds 0.

(** Underscores of a numeric literal must stand between two digits; they
    are then dropped.  [prev] tells whether the character before was a
    digit. *)
Fixpoint drop_underscores (prev : bool) (s : text) : option text :=
  match s with
  | [] => Some []
  | c :: r =>
      if eqc c underscore then
        match r with
        | n :: _ => if prev && is_digit n then drop_underscores false r
                    else None
        | [] => None
        end
      else cons c <$> drop_underscores (is_digit c) r
  end.

Definition pow10 (e : Z) : Q :=
  if e <? 0 then (1 / inject_Z (10 ^ (- e)))%Q else inject_Z (10 ^ e).

(** The exponent part, empty or [e], an optional sign and digits *)
Definition exponent (s : text) : option Z :=
  match s with
  | [] => Some 0
  | c :: r =>
      if eqc c "e"%char || eqc c "E"%char then
        let '(neg, r1) :=
          match r with
          | sg :: r' => if eqc sg "-"%char then (true, r')
                        else if eqc sg "+"%char then (false, r')
                        else (false, r)
          | [] => (false, r)
          end in
        match span_digits r1 with
        | (d :: ds, []) =>
            Some (if neg then - dec_value (d :: ds) else dec_value (d :: ds))
        | _ => None
        end
      else None
  end.

(** An unsigned decimal literal: digits, an optional point and digits, an
    optional exponent; one digit at least before the exponent. *)
Definition decimal (s : text) : option Q :=
  let '(ip, r1) := span_digits s in
  let '(fp, r2) :=
    match r1 with
    | c :: r => if eqc c "."%char then span_digits r else ([], r1)
    | [] => ([], r1)
    end in
  match ip, fp with
  | [], [] => None
  | _, _ =>
      match exponent r2 with
      | Some e =>
          Some ((inject_Z (dec_value (ip ++ fp))
                 * pow10 (e - Z.of_nat (length fp)))%Q)
      | None => None
      end
  end.

Definition unsigned_float (s : text) : option pyfloat :=
  let l := lower s in
  if eqt l (of_string "inf") || eqt l (of_string "infinity")
  then Some (FInf false)
  else if eqt l (of_string "nan") then Some FNan
  else FNum <$> decimal s.

Definition negate (f : pyfloat) : pyfloat :=
  match f with
  | FNum q => FNum (- q)%Q
  | FInf n => FInf (negb n)
  | FNan => FNan
  end.

(** [float(s)]; [None] is [ValueError].  The value of a decimal literal
    is kept exact. *)
Definition py_float (s : text) : option pyfloat :=
  match drop_underscores false (strip s) with
  | Some (c :: r) =>
      if eqc c "-"%char then negate <$> unsigned_float r
      else if eqc c "+"%char then unsigned_float r
      else unsigned_float (c :: r)
  | _ => None
  end.

End Builtins.

Import Builtins.

(** ** PID registry *)

Record PIDDefinition : Type := {
  command : string;
  bytes_needed : nat;
  decoder : list Z -> result Q
}.

(** [d[i]] on a list: [IndexError] out of range. *)
Definition item (d : list Z) (i : nat) : result Z :=
  match d !! i with
  | Some b => Ok b
  | None => Err IndexError
  end.

Definition bind_result {A B} (r : result A) (k : A -> result B) : result B :=
  match r with Ok a => k a | Err e => Err e end.

Notation "x <-! r ; k" := (bind_result r (fun x => k))
  (at level 100, r at next level, right associativity).

Definition decode_rpm (d : list Z) : result Q :=
  d0 <-! item d 0; d1 <-! item d 1;
  Ok ((inject_Z (d0 * 256) + inject_Z d1) / 4)%Q.

Definition decode_identity (d : list Z) : result Q :=
  d0 <-! item d 0; Ok (inject_Z d0).

Definition decode_offset40 (d : list Z) : result Q :=
  d0 <-! item d 0; Ok (inject_Z (d0 - 40)).

Definition decode_percent (d : list Z) : result Q :=
  d0 <-! item d 0; Ok ((inject_Z d0 * 100) / 255)%Q.

(** The table keeps the insertion order of the Python dict. *)
Definition PID_TABLE : list (string * PIDDefinition) :=
  [ ("rpm"%string, {| command := "010C"; bytes_needed := 2; decoder := decode_rpm |});
    ("speed_kmh"%string, {| command := "010D"; bytes_needed := 1; decoder := decode_identity |});
    ("coolant_c"%string, {| command := "0105"; bytes_needed := 1; decoder := decode_offset40 |});
    ("throttle_pct"%string, {| command := "0111"; bytes_needed := 1; decoder := decode_percent |});
    ("engine_load_pct"%string, {| command := "0104"; bytes_needed := 1; decoder := decode_percent |});
    ("fuel_level_pct"%string, {| command := "012F"; bytes_needed := 1; decoder := decode_percent |});
    ("intake_c"%string, {| command := "010F"; bytes_needed := 1; decoder := decode_offset40 |}) ].

(** ** Response parser *)

Definition CONTROL_LINES : list text :=
  map of_string
    [ "OK"; "NO DATA"; "STOPPED"; "UNABLE TO CONNECT";
      "BUS INIT...ERROR"; "ERROR"; "?" ]%string.

Definition space : ascii := " "%char.
Definition prompt : ascii := ">"%char.

(** One character of the class [[0-9A-F ]]. *)
Definition hex_line_char (c : ascii) : bool :=
  is_digit c || ((65 <=? code c) && (code c <=? 70)) || eqc c space.

(** [HEX_LINE_RE.fullmatch(line)] for [^[0-9A-F ]+$]. *)
Definition HEX_LINE_RE_fullmatch (line : text) : bool :=
  match line with
  | [] => false
  | _ => forallb hex_line_char line
  end.

(** [[compact[i : i + 2] for i in range(0, len(compact), 2)]] *)
Fixpoint pairs_of (compact : text) : list text :=
  match compact with
  | a :: b :: r => [a; b] :: pairs_of r
  | [a] => [[a]]
  | [] => []
  end.

Definition _split_hex_pairs (value : text) : list text :=
  let compact := remove_char space value in
  if negb (Nat.even (length compact)) then []
  else pairs_of compact.

(** [[int(token, 16) for token in tokens]]; [None] is [ValueError]. *)
Fixpoint ints16 (tokens : list text) : option (list Z) :=
  match tokens with
  | [] => Some []
  | t :: ts =>
      match py_int 16 t with
      | Some n => cons n <$> ints16 ts
      | None => None
      end
  end.

(** The body of the loop over the lines of the response: [None] is
    [continue], [Some payload] is [return payload]. *)
Definition scan_line (expected_mode expected_pid command_upper raw_line : text)
  : option (list Z) :=
  let line := remove_char prompt (upper (strip raw_line)) in
  if match line with [] => true | _ => false end
     || eqt line command_upper
     || startswith (of_string "SEARCHING") line
  then None
  else if existsb (eqt line) CONTROL_LINES then None
  else if negb (HEX_LINE_RE_fullmatch line) then None
  else
    let tokens := if contains space line then split_ws line
                  else _split_hex_pairs line in
    if (length tokens <? 2)%nat then None
    else
      match tokens with
      | t0 :: t1 :: rest =>
          if negb (eqt t0 expected_mode) || negb (eqt t1 expected_pid)
          then None
          else ints16 rest
      | _ => None
      end.

Fixpoint first_return {A} (f : text -> option A) (lines : list text)
  : option A :=
  match lines with
  | [] => None
  | l :: ls =>
      match f l with
      | Some r => Some r
      | None => first_return f ls
      end
  end.

(** [parse_pid_bytes(command, response)]: [Err ValueError] when the first
    two characters of [command] are no hexadecimal number. *)
Definition parse_pid_bytes (command response : text)
  : result (option (list Z)) :=
  match py_int 16 (take 2 command) with
  | None => Err ValueError
  | Some mode =>
      let expected_mode := format_02X (mode + 64) in
      let expected_pid := upper (take 2 (drop 2 command)) in
      let command_upper := upper command in
      Ok (first_return (scan_line expected_mode expected_pid command_upper)
            (split_on LF (replace_char CR LF response)))
  end.

(** ** Heap of dictionary objects

    The snapshot the store owns is a Python dict that holds two further
    dicts.  They are mutated in place and copied by [copy.deepcopy], so
    they are objects in a heap, addressed by location. *)

Definition loc := positive.

Inductive pyval : Type :=
  | VNone
  | VBool (b : bool)
  | VInt (n : Z)
  | VStr (s : string)
  | VFloat (q : Q)
  | VRef (l : loc).

Abbreviation dict := (gmap string pyval).
Abbreviation heap := (gmap loc dict).

(** [float | None] as a Python value *)
Definition of_metric (v : option Q) : pyval :=
  match v with Some q => VFloat q | None => VNone end.

Definition of_opt_str (v : option string) : pyval :=
  match v with Some s => VStr s | None => VNone end.

(** A new dict object *)
Definition alloc (d : dict) (h : heap) : loc * heap :=
  let l := fresh (dom h) in (l, <[l := d]> h).

(** [d[key]]: [None] is [KeyError] *)
Definition getitem (l : loc) (key : string) (h : heap) : option pyval :=
  h !! l ≫= (.!! key).

(** [d[key] = value] *)
Definition setitem (l : loc) (key : string) (value : pyval) (h : heap) : heap :=
  alter (<[key := value]>) l h.

(** [key in d] *)
Definition has_key (l : loc) (key : string) (h : heap) : bool :=
  match getitem l key h with Some _ => true | None => false end.

(** ** Telemetry store *)

Record TelemetryStore : Type := { _snapshot : loc }.

Definition initial_metrics : dict :=
  {[ "battery_v"%string := VNone ]}
  ∪ list_to_map (map (fun kv => (fst kv, VNone)) PID_TABLE).

(** [TelemetryStore.__init__] *)
Definition TelemetryStore_init (adapter_host : string) (adapter_port : Z)
    (h : heap) : TelemetryStore * heap :=
  let '(la, h1) :=
    alloc {[ "host"%string := VStr adapter_host;
             "port"%string := VInt adapter_port ]} h in
  let '(lm, h2) := alloc initial_metrics h1 in
  let '(ls, h3) :=
    alloc {[ "connected"%string := VBool false;
             "updated_at"%string := VNone;
             "last_error"%string := VNone;
             "adapter"%string := VRef la;
             "metrics"%string := VRef lm ]} h2 in
  ({| _snapshot := ls |}, h3).

(** [set_connected]; [now] is the value of [utc_now_iso()]. *)
Definition set_connected (self : TelemetryStore) (connected : bool)
    (last_error : option string) (now : string) (h : heap) : heap :=
  let s := _snapshot self in
  setitem s "updated_at" (VStr now)
    (setitem s "last_error" (of_opt_str last_error)
       (setitem s "connected" (VBool connected) h)).

(** The loop of [update_metrics] over [metrics.items()] *)
Definition store_items (metric_store : loc) (metrics : gmap string (option Q))
    (h : heap) : heap :=
  map_fold
    (fun key value h =>
       if has_key metric_store key h
       then setitem metric_store key (of_metric value) h
       else h)
    h metrics.

(** [update_metrics]; [now] is the value of [utc_now_iso()]. *)
Definition update_metrics (self : TelemetryStore)
    (metrics : gmap string (option Q)) (connected : bool)
    (last_error : option string) (now : string) (h : heap) : result heap :=
  match getitem (_snapshot self) "metrics" h with
  | None => Err (KeyError "metrics")
  | Some (VRef metric_store) =>
      let h1 := store_items metric_store metrics h in
      let s := _snapshot self in
      Ok (setitem s "updated_at" (VStr now)
            (setitem s "last_error" (of_opt_str last_error)
               (setitem s "connected" (VBool connected) h1)))
  | Some _ => Err AssertionError
  end.

(** The dict of metrics the store holds, read through the heap. *)
Definition metrics_of (self : TelemetryStore) (h : heap) : option dict :=
  match getitem (_snapshot self) "metrics" h with
  | Some (VRef lm) => h !! lm
  | _ => None
  end.

Definition is_atom (v : pyval) : bool :=
  match v with VRef _ => false | _ => true end.

(** A value that is an atom or a dict of atoms. *)
Definition flat (h : heap) (v : pyval) : Prop :=
  match v with
  | VRef l =>
      exists d, h !! l = Some d
                /\ forall key v', d !! key = Some v' -> is_atom v' = true
  | _ => True
  end.

(** No two keys of the dict hold the same object. *)
Definition distinct_refs (d : dict) : Prop :=
  forall key1 key2 l,
    d !! key1 = Some (VRef l) -> d !! key2 = Some (VRef l) -> key1 = key2.

(** The shape every store has from [__init__] on: the snapshot dict
    holds atoms and dicts of atoms, the metrics dict among them, and no
    dict twice. *)
Definition store_ok (self : TelemetryStore) (h : heap) : Prop :=
  exists d lm,
    h !! _snapshot self = Some d
    /\ d !! "metrics"%string = Some (VRef lm)
    /\ (forall key v, d !! key = Some v -> flat h v)
    /\ distinct_refs d.

(** What the loop of [update_metrics] makes of the metrics dict [dm]. *)
Definition merged (dm : dict) (metrics : gmap string (option Q)) : dict :=
  map_imap
    (fun key old =>
       Some (match metrics !! key with
             | Some value => of_metric value
             | None => old
             end))
    dm.

(** [VOLT_RE.search(response)] for [(\d{1,2}(?:[.,]\d{1,2})?)]: the match
    starts at the first digit of the response and is greedy. *)
Definition is_sep (c : ascii) : bool := eqc c "."%char || eqc c ","%char.

Definition volt_match_here (s : text) : text :=
  let '(ip, r1) :=
    match s with
    | a :: b :: r => if is_digit b then ([a; b], r) else ([a], b :: r)
    | a :: r => ([a], r)
    | [] => ([], [])
    end in
  match r1 with
  | p :: d1 :: d2 :: _ =>
      if is_sep p && is_digit d1
      then if is_digit d2 then ip ++ [p; d1; d2] else ip ++ [p; d1]
      else ip
  | [p; d1] => if is_sep p && is_digit d1 then ip ++ [p; d1] else ip
  | _ => ip
  end.

Fixpoint VOLT_RE_search (s : text) : option text :=
  match s with
  | [] => None
  | c :: r => if is_digit c then Some (volt_match_here s)
              else VOLT_RE_search r
  end.

(** [parse_voltage(response)].  The matched text is a plain decimal, so
    [float] gives a number; the other floats and [ValueError] both end in
    no reading. *)
Definition parse_voltage (response : text) : option Q :=
  match VOLT_RE_search response with
  | None => None
  | Some m =>
      match py_float (replace_char ","%char "."%char m) with
      | Some (FNum q) => Some q
      | _ => None
      end
  end.

(** ** Deep copies and snapshots *)

(** [y[key] = deepcopy(value)] for every item of the source dict, in
    place on the new dict [y]; [rec] is [deepcopy] one level down. *)
Fixpoint copy_items (rec : pyval -> heap -> option (pyval * heap))
    (y : loc) (items : list (string * pyval)) (h : heap) : option heap :=
  match items with
  | [] => Some h
  | (key, value) :: rest =>
      match rec value h with
      | Some (value', h') => copy_items rec y rest (setitem y key value' h')
      | None => None
      end
  end.

(** [copy.deepcopy(x)].  Atoms are returned as they are; a dict gets a
    new object whose items are copied in turn.  [fuel] bounds the nesting
    depth; [None] is a structure nested deeper than that.  The memo of
    [deepcopy] is left out: it only acts on an object that is reached a
    second time, and in a store of the shape [store_ok] no object is. *)
Fixpoint deepcopy (fuel : nat) (x : pyval) (h : heap)
  : option (pyval * heap) :=
  match x with
  | VRef l =>
      match fuel with
      | O => None
      | S f =>
          match h !! l with
          | Some d =>
              let '(y, h0) := alloc ∅ h in
              match copy_items (deepcopy f) y (map_to_list d) h0 with
              | Some h1 => Some (VRef y, h1)
              | None => None
              end
          | None => None
          end
      end
  | _ => Some (x, h)
  end.

(** [TelemetryStore.snapshot] *)
Definition snapshot (self : TelemetryStore) (h : heap)
  : option (pyval * heap) :=
  deepcopy (S (size h)) (VRef (_snapshot self)) h.

(** *** What a caller can do to a structure it holds

    A caller that holds the value [root] reaches objects by following
    keys from it, and can store atoms, values found in the structure or
    new dicts, and delete keys. *)

Inductive mexpr : Type :=
  | MAtom (v : pyval)
  | MPath (path : list string)
  | MNewDict.

Inductive mutation : Type :=
  | MSet (path : list string) (key : string) (e : mexpr)
  | MDel (path : list string) (key : string).

(** [root[k1][k2]...] *)
Fixpoint resolve (h : heap) (x : pyval) (path : list string) : option pyval :=
  match path with
  | [] => Some x
  | key :: rest =>
      match x with
      | VRef l =>
          match getitem l key h with
          | Some v => resolve h v rest
          | None => None
          end
      | _ => None
      end
  end.

Definition eval_mexpr (root : pyval) (e : mexpr) (h : heap)
  : option (pyval * heap) :=
  match e with
  | MAtom v => if is_atom v then Some (v, h) else None
  | MPath path => (fun v => (v, h)) <$> resolve h root path
  | MNewDict => let '(l, h') := alloc ∅ h in Some (VRef l, h')
  end.

(** One statement of the caller; a statement that raises leaves the heap
    as it was. *)
Definition mutate (root : pyval) (m : mutation) (h : heap) : heap :=
  match m with
  | MSet path key e =>
      match resolve h root path with
      | Some (VRef l) =>
          match eval_mexpr root e h with
          | Some (v, h') => setitem l key v h'
          | None => h
          end
      | _ => h
      end
  | MDel path key =>
      match resolve h root path with
      | Some (VRef l) => alter (delete key) l h
      | _ => h
      end
  end.

Definition mutate_all (root : pyval) (ms : list mutation) (h : heap) : heap :=
  fold_left (fun h m => mutate root m h) ms h.

(** Two values, each read in its own heap, are the same tree of dicts and
    atoms, nested [n] deep at most; the dicts of the second lie outside
    the set [D] of locations. *)
Fixpoint tree_eq (D : gset loc) (n : nat) (h1 : heap) (x1 : pyval)
    (h2 : heap) (x2 : pyval) : Prop :=
  match x1, x2 with
  | VRef l1, VRef l2 =>
      match n with
      | O => False
      | S n' =>
          (l2 ∉ D)
          /\ exists d1 d2,
               h1 !! l1 = Some d1 /\ h2 !! l2 = Some d2
               /\ forall key,
                    match d1 !! key, d2 !! key with
                    | Some v1, Some v2 => tree_eq D n' h1 v1 h2 v2
                    | None, None => True
                    | _, _ => False
                    end
      end
  | VRef _, _ | _, VRef _ => False
  | _, _ => x1 = x2
  end.

(** The two values are the same tree. *)
Definition same_value (h1 : heap) (x1 : pyval) (h2 : heap) (x2 : pyval)
  : Prop :=
  exists n, tree_eq ∅ n h1 x1 h2 x2.

(** Every object of the first heap is the same in the second. *)
Definition frame (h h' : heap) : Prop :=
  forall l, l ∈ dom h -> h' !! l = h !! l.

(** No object outside [D] holds a reference into [D]. *)
Definition no_back (D : gset loc) (h : heap) : Prop :=
  forall l d key l',
    l ∉ D -> h !! l = Some d -> d !! key = Some (VRef l') -> l' ∉ D.

(** ** Protocol client *)

(** What one [reader.read(256)] under [wait_for] gives: bytes (none when
    the peer has closed the socket) or the timeout. *)
Inductive read_event : Type :=
  | Data (raw : text)
  | Timeout.

(** The reader is the number of reads done on the socket so far, the
    writer is what was written to it. *)
Record ELM327Client : Type := {
  _host : string;
  _port : Z;
  _reader : option nat;
  _writer : option (list text)
}.

Definition with_reader (self : ELM327Client) (r : option nat) : ELM327Client :=
  {| _host := _host self; _port := _port self;
     _reader := r; _writer := _writer self |}.

Definition with_writer (self : ELM327Client) (w : option (list text))
  : ELM327Client :=
  {| _host := _host self; _port := _port self;
     _reader := _reader self; _writer := w |}.

Definition not_connected_msg : string := "OBD adapter socket is not connected.".
Definition closed_msg : string := "OBD adapter closed the socket.".

(** [s.encode("ascii")] *)
Definition encode_ascii (s : text) : result text :=
  if forallb (fun c => code c <? 128) s then Ok s else Err UnicodeEncodeError.

(** [raw.decode("ascii", errors="ignore")] *)
Definition decode_ascii_ignore (raw : text) : text :=
  List.filter (fun c => code c <? 128) raw.

(** The loop of [_read_until_prompt], from read number [pos] on.  [rx]
    tells what each read of the socket gives.  [None]: the loop is still
    running after [fuel] reads. *)
Fixpoint read_loop (rx : nat -> read_event) (fuel : nat) (pos : nat)
    (chunks : list text) : option (result text * nat) :=
  match fuel with
  | O => None
  | S f =>
      match rx pos with
      | Timeout => Some (Err TimeoutError, S pos)
      | Data raw =>
          match raw with
          | [] => Some (Err (ConnectionError closed_msg), S pos)
          | _ =>
              let text := decode_ascii_ignore raw in
              let chunks' := chunks ++ [text] in
              if contains prompt text
              then Some (Ok (concat chunks'), S pos)
              else read_loop rx f (S pos) chunks'
          end
      end
  end.

Definition _read_until_prompt (rx : nat -> read_event) (fuel : nat)
    (self : ELM327Client) : option (result text * ELM327Client) :=
  match _reader self with
  | None => Some (Err (ConnectionError not_connected_msg), self)
  | Some pos =>
      match read_loop rx fuel pos [] with
      | Some (r, pos') => Some (r, with_reader self (Some pos'))
      | None => None
      end
  end.

(** [ELM327Client.send] *)
Definition send (rx : nat -> read_event) (fuel : nat) (self : ELM327Client)
    (command : text) : option (result text * ELM327Client) :=
  match _writer self with
  | None => Some (Err (ConnectionError not_connected_msg), self)
  | Some written =>
      match encode_ascii (command ++ [CR]) with
      | Err e => Some (Err e, self)
      | Ok payload =>
          _read_until_prompt rx fuel
            (with_writer self (Some (written ++ [payload])))
      end
  end.

(** ** Telemetry poller *)

(** The state the poller works on: its client, the heap that holds the
    store, and the number of readings of the wall clock so far. *)
Record world : Type := {
  w_client : ELM327Client;
  w_heap : heap;
  w_clock : nat
}.

Definition set_client (w : world) (c : ELM327Client) : world :=
  {| w_client := c; w_heap := w_heap w; w_clock := w_clock w |}.

(** A computation returns, raises, or is still reading the socket when
    the fuel of one of its reads is used up. *)
Inductive outcome (A : Type) : Type :=
  | Returns (a : A) (w : world)
  | Raises (e : exn) (w : world)
  | Running.
Arguments Returns {A} a w.
Arguments Raises {A} e w.
Arguments Running {A}.

Definition M (A : Type) : Type := world -> outcome A.

Definition ret {A} (a : A) : M A := fun w => Returns a w.

Definition bind {A B} (m : M A) (k : A -> M B) : M B :=
  fun w =>
    match m w with
    | Returns a w' => k a w'
    | Raises e w' => Raises e w'
    | Running => Running
    end.

Definition lift {A} (r : result A) : M A :=
  fun w => match r with Ok a => Returns a w | Err e => Raises e w end.

Notation "x <- m ;; k" := (bind m (fun x => k))
  (at level 100, m at next level, right associativity).

(** [str(exc)]; the message of an exception the interpreter raises is not
    modelled. *)
Definition str_exn (e : exn) : string :=
  match e with
  | ConnectionError msg => msg
  | KeyError key => key
  | _ => ""
  end.

Inductive after_tick : Type :=
  | NextTick
  | Reconnect.

Section Poller.

(** What the adapter sends, read by read; what the wall clock shows,
    reading by reading; how many reads one [send] is followed for. *)
Variable rx : nat -> read_event.
Variable clock : nat -> string.
Variable fuel : nat.

(** [await client.send(command)] *)
Definition client_send (command : text) : M text :=
  fun w =>
    match send rx fuel (w_client w) command with
    | Some (Ok response, c) => Returns response (set_client w c)
    | Some (Err e, c) => Raises e (set_client w c)
    | None => Running
    end.

(** [await self._store.update_metrics(...)], the clock read included *)
Definition store_update_metrics (store : TelemetryStore)
    (metrics : gmap string (option Q)) (connected : bool)
    (last_error : option string) : M unit :=
  fun w =>
    match update_metrics store metrics connected last_error
            (clock (w_clock w)) (w_heap w) with
    | Ok h => Returns tt {| w_client := w_client w; w_heap := h;
                            w_clock := S (w_clock w) |}
    | Err e => Raises e w
    end.

(** [await self._store.set_connected(...)] *)
Definition store_set_connected (store : TelemetryStore) (connected : bool)
    (last_error : option string) : M unit :=
  fun w =>
    Returns tt {| w_client := w_client w;
                  w_heap := set_connected store connected last_error
                              (clock (w_clock w)) (w_heap w);
                  w_clock := S (w_clock w) |}.

(** The value one PID contributes to the tick, from the response to its
    command. *)
Definition pid_metric (definition : PIDDefinition) (response : text)
  : result (option Q) :=
  payload <-! parse_pid_bytes (of_string (command definition)) response;
  match payload with
  | None => Ok None
  | Some payload =>
      if (length payload <? bytes_needed definition)%nat then Ok None
      else
        raw_value <-! decoder definition (take (bytes_needed definition) payload);
        Ok (Some (py_round raw_value 1))
  end.

(** The loop over [PID_TABLE.items()] *)
Fixpoint poll_pids (table : list (string * PIDDefinition))
    (metrics : gmap string (option Q)) : M (gmap string (option Q)) :=
  match table with
  | [] => ret metrics
  | (key, definition) :: rest =>
      response <- client_send (of_string (command definition));;
      value <- lift (pid_metric definition response);;
      poll_pids rest (<[key := value]> metrics)
  end.

(** One turn of the inner loop of [_run_obd], up to the wait. *)
Definition obd_tick (store : TelemetryStore) : M unit :=
  metrics <- poll_pids PID_TABLE ∅;;
  voltage_response <- client_send (of_string "ATRV");;
  let voltage_value := parse_voltage voltage_response in
  let metrics :=
    <["battery_v"%string := (fun v => py_round v 2) <$> voltage_value]> metrics in
  store_update_metrics store metrics true None.

(** [ELM327Client.close] *)
Definition close (self : ELM327Client) : ELM327Client :=
  match _writer self with
  | None => self
  | Some _ => with_writer (with_reader self None) None
  end.



End Poller.

(** The commands of one tick, in the order they are sent *)
Definition tick_commands : list text :=
  map (fun kv => of_string (command (snd kv))) PID_TABLE ++ [of_string "ATRV"].





(** ** Simulation *)

Section Simulation.

(** [math.sin], and the values [random.random()] gives, draw by draw. *)
Variable sin : Q -> Q.
Variable rnd : nat -> Q.

(** [random.uniform(a, b)], at draw number [i] *)
Definition uniform (a b : Q) (i : nat) : Q := (a + (b - a) * rnd i)%Q.

(** The metrics of one tick of [_run_simulation], for the clock value [t]
    after its step; [i] is the number of draws made before. *)
Definition simulation_metrics (t : Q) (i : nat) : gmap string (option Q) :=
  let speed := py_max 0 (py_min 220 (70 + sin t * 45 + uniform (-2.5) 2.5 i))%Q in
  let rpm := py_max 700 (py_min 7000 (900 + speed * 34 + uniform (-70) 70 (i + 1)))%Q in
  let load := py_max 4 (py_min 100 ((rpm / 7000) * 100 + uniform (-4) 4 (i + 2)))%Q in
  let throttle := py_max 2 (py_min 100 ((speed / 220) * 90 + uniform (-3.5) 3.5 (i + 3)))%Q in
  let coolant := py_max 65 (py_min 110 (88 + sin (t * 0.2) * 6 + uniform (-0.6) 0.6 (i + 4)))%Q in
  let intake := py_max 10 (py_min 55 (25 + sin (t * 0.4) * 9 + uniform (-1.5) 1.5 (i + 5)))%Q in
  let fuel_level := py_max 5 (py_min 100 (78 - t * 0.05))%Q in
  let voltage := py_max 12.1 (py_min 14.4 (13.2 + sin (t * 0.35) * 0.5))%Q in
  <["speed_kmh"%string := Some (py_round speed 1)]>
  (<["rpm"%string := Some (py_round rpm 1)]>
  (<["engine_load_pct"%string := Some (py_round load 1)]>
  (<["throttle_pct"%string := Some (py_round throttle 1)]>
  (<["coolant_c"%string := Some (py_round coolant 1)]>
  (<["intake_c"%string := Some (py_round intake 1)]>
  (<["fuel_level_pct"%string := Some (py_round fuel_level 1)]>
  (<["battery_v"%string := Some (py_round voltage 2)]> ∅))))))).

(** One turn of the loop of [_run_simulation], up to the wait: the local
    clock [t] and the number of draws are threaded along. *)
Definition simulation_tick (clock : nat -> string) (store : TelemetryStore)
    (t : Q) (i : nat) : M (Q * nat) :=
  let t := (t + 0.15)%Q in
  bind (store_update_metrics clock store (simulation_metrics t i) true None)
       (fun _ => ret (t, (i + 6)%nat)).

End Simulation.

(** ** Configuration *)

Record Settings : Type := {
  obd_host : string;
  obd_port : Z;
  poll_interval : pyfloat;
  reconnect_delay : pyfloat;
  http_host : string;
  http_port : Z;
  simulate : bool
}.

Section Config.

(** [os.environ], after [_load_local_env_file] has added the settings of
    the local file that the process environment lacks. *)
Variable environ : gmap string string.

Definition getenv (name : string) : option string := environ !! name.

Definition truthy : list text :=
  map of_string [ "1"; "true"; "yes"; "on" ]%string.

Definition _read_bool (name : string) (default : bool) : bool :=
  match getenv name with
  | None => default
  | Some value => existsb (eqt (lower (strip (of_string value)))) truthy
  end.

Definition _read_int (name : string) (default : Z) : Z :=
  match getenv name with
  | None => default
  | Some value =>
      match py_int 10 (of_string value) with
      | Some n => n
      | None => default
      end
  end.

Definition _read_float (name : string) (default : pyfloat) : pyfloat :=
  match getenv name with
  | None => default
  | Some value =>
      match py_float (of_string value) with
      | Some x => x
      | None => default
      end
  end.

Definition load_settings : Settings :=
  {| obd_host := default "192.168.0.10"%string (getenv "OBD_HOST");
     obd_port := _read_int "OBD_PORT" 35000;
     poll_interval := _read_float "POLL_INTERVAL" (FNum 0.40);
     reconnect_delay := _read_float "RECONNECT_DELAY" (FNum 3.0);
     http_host := default "0.0.0.0"%string (getenv "HTTP_HOST");
     http_port := _read_int "HTTP_PORT" 8080;
     simulate := _read_bool "SIMULATE" false |}.

End Config.

(** The entry of the registry for a metric key *)
Definition pid_definition (key : string) : option PIDDefinition :=
  snd <$> List.find (fun kv => String.eqb (fst kv) key) PID_TABLE.

(** The clamp the simulation declares for each metric, as (low, high). *)
Definition declared_clamps : list (string * (Q * Q)) :=
  [ ("speed_kmh", (0, 220)); ("rpm", (700, 7000)); ("coolant_c", (65, 110));
    ("throttle_pct", (0, 100)); ("engine_load_pct", (0, 100));
    ("fuel_level_pct", (0, 100)); ("intake_c", (10, 55));
    ("battery_v", (12.1, 14.4)) ]%string%Q.

(** A hexadecimal digit, of either case *)
Definition is_hex (c : ascii) : bool :=
  is_digit c || ((65 <=? code c) && (code c <=? 70))
  || ((97 <=? code c) && (code c <=? 102)).

(** An upper-case hexadecimal digit *)
Definition is_hex_upper (c : ascii) : bool :=
  is_digit c || ((65 <=? code c) && (code c <=? 70)).

(** The two characters of a byte *)
Definition byte_text (p : ascii * ascii) : text := [fst p; snd p].

(** A data line with its bytes separated by one blank, and the same line
    with its bytes concatenated *)
Definition spaced (pairs : list (ascii * ascii)) : text :=
  match pairs with
  | [] => []
  | p :: ps => byte_text p ++ flat_map (fun q => space :: byte_text q) ps
  end.

Definition unspaced (pairs : list (ascii * ascii)) : text :=
  flat_map byte_text pairs.

(** The text is empty or starts a new line; the text is empty or ends
    with a line break. *)
Definition is_break (c : ascii) : Prop := c = CR \/ c = LF.

Definition starts_line (s : text) : Prop :=
  s = [] \/ exists c r, s = c :: r /\ is_break c.

Definition ends_line (s : text) : Prop :=
  s = [] \/ exists r c, s = r ++ [c] /\ is_break c.

(** The 256 characters *)
Definition all_ascii : list ascii := map ascii_of_nat (seq 0 256).

(** The value the store holds for a metric key *)
Definition get_metric (self : TelemetryStore) (h : heap) (key : string)
  : option pyval :=
  metrics_of self h ≫= (.!! key).

(** An adapter that sends the listed events and is silent afterwards *)
Definition script (events : list read_event) : nat -> read_event :=
  fun n => default Timeout (events !! n).

(** A whole response in one read: the text, two carriage returns and the
    prompt *)
Definition reply (s : string) : read_event :=
  Data (of_string s ++ [CR; CR] ++ of_string ">").

(** The text a read event decodes to *)
Definition reply_text (ev : read_event) : text :=
  match ev with
  | Data raw => decode_ascii_ignore raw
  | Timeout => []
  end.




(** The failures the error taxonomy calls connection failures *)
Definition connection_failure (e : exn) : Prop :=
  match e with
  | ConnectionError _ | TimeoutError => True
  | _ => False
  end.


(** A client as [connect] leaves it: reader and writer set, nothing read
    or written yet *)
Definition connected_client : ELM327Client :=
  {| _host := "192.168.0.10"; _port := 35000;
     _reader := Some 0%nat; _writer := Some [] |}.

(** A store as [__init__] makes it in an empty heap, to run examples on *)
Definition demo_store : TelemetryStore * heap :=
  TelemetryStore_init "192.168.0.10" 35000 ∅.

Definition demo_clock : nat -> string :=
  fun _ => "2026-01-01T00:00:00+00:00"%string.

Definition demo_world : world :=
  {| w_client := connected_client; w_heap := demo_store.2; w_clock := 0 |}.

(** The answers to one tick with every PID answered *)
Definition good_tick : list read_event :=
  [ reply "41 0C 1A F8"; reply "41 0D 50"; reply "41 05 7B";
    reply "41 11 80"; reply "41 04 40"; reply "41 2F FF";
    reply "41 0F 3C"; reply "12.6V" ].






(** The snapshot dict after the three fields are set *)
Definition stamped (d : dict) (connected : bool) (last_error : option string)
    (now : string) : dict :=
  <["updated_at"%string := VStr now]>
    (<["last_error"%string := of_opt_str last_error]>
       (<["connected"%string := VBool connected]> d)).

(** A value that is no reference into [D] *)
Definition outside (D : gset loc) (v : pyval) : Prop :=
  match v with VRef l => l ∉ D | _ => True end.

(** Bytes written with hexadecimal digits, with upper-case ones, and a
    byte in upper case *)
Definition hex_pairs (pairs : list (ascii * ascii)) : Prop :=
  Forall (fun p => is_hex (fst p) = true /\ is_hex (snd p) = true) pairs.

Definition upper_pairs (pairs : list (ascii * ascii)) : Prop :=
  Forall (fun p => is_hex_upper (fst p) = true /\ is_hex_upper (snd p) = true)
    pairs.

Definition upper_pair (p : ascii * ascii) : ascii * ascii :=
  (upper_char (fst p), upper_char (snd p)).

(** A character that is no line break *)
Definition plain (c : ascii) : Prop := eqc c CR = false /\ eqc c LF = false.

(** ** Further code of the repository *)

(** *** Protocol client: connecting *)

(** [self._writer.write(payload)] *)
Definition writer_write (self : ELM327Client) (payload : text) : ELM327Client :=
  with_writer self ((fun written => written ++ [payload]) <$> _writer self).

(** The loop of [_synchronize_prompt]: a bare carriage return is written
    and the answer read, [n] times at most; an exception of the read ends
    the loop without being raised. *)
Fixpoint sync_loop (rx : nat -> read_event) (fuel : nat) (n : nat)
    (self : ELM327Client) : option (result unit * ELM327Client) :=
  match n with
  | O => Some (Ok tt, self)
  | S n' =>
      match _read_until_prompt rx fuel (writer_write self [CR]) with
      | None => None
      | Some (Ok _, self') => sync_loop rx fuel n' self'
      | Some (Err _, self') => Some (Ok tt, self')
      end
  end.

(** [ELM327Client._synchronize_prompt] *)
Definition _synchronize_prompt (rx : nat -> read_event) (fuel : nat)
    (self : ELM327Client) : option (result unit * ELM327Client) :=
  match _writer self with
  | None => Some (Err (ConnectionError not_connected_msg), self)
  | Some _ => sync_loop rx fuel 2 self
  end.

Definition setup_commands : list text :=
  map of_string [ "ATZ"; "ATE0"; "ATL0"; "ATS0"; "ATH0"; "ATSP0" ]%string.

(** [for cmd in commands: await self.send(cmd)]; the settle delay after
    each command is time only. *)
Fixpoint send_each (rx : nat -> read_event) (fuel : nat) (commands : list text)
    (self : ELM327Client) : option (result unit * ELM327Client) :=
  match commands with
  | [] => Some (Ok tt, self)
  | cmd :: rest =>
      match send rx fuel self cmd with
      | None => None
      | Some (Ok _, self') => send_each rx fuel rest self'
      | Some (Err e, self') => Some (Err e, self')
      end
  end.

(** [ELM327Client._initialize_adapter] *)
Definition _initialize_adapter (rx : nat -> read_event) (fuel : nat)
    (self : ELM327Client) : option (result unit * ELM327Client) :=
  send_each rx fuel setup_commands self.

(** [ELM327Client.connect]; [opened] is what opening the connection under
    [wait_for] gives, and [rx] what the new connection then sends. *)
Definition connect (rx : nat -> read_event) (fuel : nat) (opened : result unit)
    (self : ELM327Client) : option (result unit * ELM327Client) :=
  match opened with
  | Err e => Some (Err e, self)
  | Ok _ =>
      let self1 := with_writer (with_reader self (Some 0%nat)) (Some []) in
      match _synchronize_prompt rx fuel self1 with
      | None => None
      | Some (Err e, self2) => Some (Err e, self2)
      | Some (Ok _, self2) => _initialize_adapter rx fuel self2
      end
  end.

(** The text has ASCII characters only. *)
Definition ascii_only (s : text) : bool := forallb (fun c => code c <? 128) s.

(** What [send] writes for a command *)
Definition wire (command : text) : text := command ++ [CR].

(** *** Store: sequences of operations, and the HTTP handlers that read it *)

Inductive store_op : Type :=
  | OpSetConnected (connected : bool) (last_error : option string) (now : string)
  | OpUpdateMetrics (metrics : gmap string (option Q)) (connected : bool)
      (last_error : option string) (now : string)
  | OpSnapshot.

(** One call on the store; [None] is a call that raises. *)
Definition run_op (self : TelemetryStore) (op : store_op) (h : heap)
  : option heap :=
  match op with
  | OpSetConnected connected last_error now =>
      Some (set_connected self connected last_error now h)
  | OpUpdateMetrics metrics connected last_error now =>
      match update_metrics self metrics connected last_error now h with
      | Ok h' => Some h'
      | Err _ => None
      end
  | OpSnapshot => snd <$> snapshot self h
  end.

Fixpoint run_ops (self : TelemetryStore) (ops : list store_op) (h : heap)
  : option heap :=
  match ops with
  | [] => Some h
  | op :: rest =>
      match run_op self op h with
      | Some h' => run_ops self rest h'
      | None => None
      end
  end.

(** [api_health] of [app/server.py]: the answer, and the heap with the
    snapshot it took.  The snapshot of a dict is a dict. *)
Definition api_health (store : TelemetryStore) (h : heap)
  : option (result dict * heap) :=
  match snapshot store h with
  | Some (VRef l, h') =>
      match getitem l "connected" h' with
      | Some connected =>
          Some (Ok (<["connected"%string := connected]>
                      {[ "status"%string := VStr "ok" ]}), h')
      | None => Some (Err (KeyError "connected"), h')
      end
  | _ => None
  end.

(** [api_state] of [app/server.py] *)
Definition api_state (store : TelemetryStore) (h : heap)
  : option (pyval * heap) :=
  snapshot store h.

(** The eight metric keys *)
Definition metric_keys : gset string :=
  list_to_set
    [ "rpm"; "speed_kmh"; "coolant_c"; "throttle_pct"; "engine_load_pct";
      "fuel_level_pct"; "intake_c"; "battery_v" ]%string.

(** The store holds the eight metric keys and the adapter address it was
    made with. *)
Definition store_full (self : TelemetryStore) (adapter_host : string)
    (adapter_port : Z) (h : heap) : Prop :=
  store_ok self h
  /\ (exists dm, metrics_of self h = Some dm /\ dom dm = metric_keys)
  /\ exists la,
       getitem (_snapshot self) "adapter" h = Some (VRef la)
       /\ h !! la = Some (<["host"%string := VStr adapter_host]>
                           {[ "port"%string := VInt adapter_port ]}).

(** The answer of [api_health] for a connected flag *)
Definition health_answer (connected : bool) : dict :=
  <["connected"%string := VBool connected]> {[ "status"%string := VStr "ok" ]}.

(** *** Parser: lines that hold no data *)

(** An ASCII character that no data line holds: in upper case it stands
    outside [[0-9A-F ]], and it is neither the prompt nor white space. *)
Definition foreign (c : ascii) : bool :=
  negb (hex_line_char (upper_char c)) && negb (eqc c prompt)
  && negb (isspace c) && (code c <? 128).

(** The line as [parse_pid_bytes] looks at it, and its tokens *)
Definition normal_line (raw_line : text) : text :=
  remove_char prompt (upper (strip raw_line)).

Definition tokens_of (line : text) : list text :=
  if contains space line then split_ws line else _split_hex_pairs line.

(** The text [VOLT_RE] matched reads as a number from 0 to 99.99. *)
Definition reading_ok (m : text) : bool :=
  match py_float (replace_char ","%char "."%char m) with
  | Some (FNum q) => Qle_bool 0 q && Qle_bool q 99.99
  | _ => false
  end.

Definition digits : text := of_string "0123456789".
Definition seps : text := of_string ".,".

(** *** Poller: the connection phase of [_run_obd] *)

(** [ELM327Client.__init__] *)
Definition ELM327Client_init (host : string) (port : Z) : ELM327Client :=
  {| _host := host; _port := port; _reader := None; _writer := None |}.

Section Session.

Variable rx : nat -> read_event.
Variable clock : nat -> string.
Variable fuel : nat.

(** [await client.connect()] *)
Definition client_connect (opened : result unit) : M unit :=
  fun w =>
    match connect rx fuel opened (w_client w) with
    | Some (Ok _, c) => Returns tt (set_client w c)
    | Some (Err e, c) => Raises e (set_client w c)
    | None => Running
    end.

(** The start of one turn of the outer loop of [_run_obd]: a new client,
    [connect], and the store marked connected, after which the inner loop
    is entered; an exception marks the store disconnected and closes the
    client. *)
Definition obd_connect_guarded (settings : Settings) (store : TelemetryStore)
    (opened : result unit) (w : world) : option (after_tick * world) :=
  let client := ELM327Client_init (obd_host settings) (obd_port settings) in
  match bind (client_connect opened)
             (fun _ => store_set_connected clock store true None)
             (set_client w client) with
  | Returns _ w' => Some (NextTick, w')
  | Raises exc w' =>
      match store_set_connected clock store false (Some (str_exn exc)) w' with
      | Returns _ w'' => Some (Reconnect, set_client w'' (close (w_client w'')))
      | _ => None
      end
  | Running => None
  end.

End Session.

(** *** Inputs to run the further properties on *)

(** An adapter that answers OK to whatever it is sent, eight times *)
Definition polite : nat -> read_event := script (replicate 8 (reply "OK")).


Definition new_client : ELM327Client := ELM327Client_init "192.168.0.10" 35000.

Definition flat_sin : Q -> Q := fun _ => 0%Q.
Definition mid_draw : nat -> Q := fun _ => (1 # 2)%Q.

(** * Properties *)

(** Closed comparisons of rational constants *)
Ltac qconst := vm_compute; first [reflexivity | discriminate].

(** ** Rounding and clamping *)

Section Rounding.

Lemma round_half_even_between (a b : Z) (y : Q) :
  (inject_Z a <= y)%Q -> (y <= inject_Z b)%Q ->
  a <= round_half_even y <= b.
Proof.
  intros Ha Hb. unfold round_half_even.
  pose proof (Qfloor_le y) as Hf.
  assert (Haf : a <= Qfloor y).
  { rewrite <- (Qfloor_Z a). by apply Qfloor_resp_le. }
  assert (Hfb : Qfloor y <= b).
  { rewrite Zle_Qle. eapply Qle_trans; eauto. }
  assert (Hup : (inject_Z (Qfloor y) < y)%Q -> Qfloor y + 1 <= b).
  { intros Hlt. cut (Qfloor y < b); [lia|].
    rewrite Zlt_Qlt. eapply Qlt_le_trans; eauto. }
  destruct (y - inject_Z (Qfloor y) ?= 1 # 2)%Q eqn:Hc.
  - apply Qeq_alt in Hc.
    destruct (Z.even (Qfloor y)); [lia|].
    split; [lia|]. apply Hup. lra.
  - lia.
  - apply Qgt_alt in Hc. split; [lia|]. apply Hup. lra.
Qed.

Lemma scale_pos (n : nat) : (0 < inject_Z (10 ^ Z.of_nat n))%Q.
Proof.
  change 0%Q with (inject_Z 0). rewrite <- Zlt_Qlt.
  apply Z.pow_pos_nonneg; lia.
Qed.

(** Rounding to [n] decimals keeps a value between two bounds that have
    [n] decimals themselves. *)
Lemma div_scale_le (a : Z) (x s : Q) :
  (0 < s)%Q -> (inject_Z a / s <= x)%Q <-> (inject_Z a <= x * s)%Q.
Proof.
  intros Hs. split; intros H.
  - assert (E : (inject_Z a / s * s == inject_Z a)%Q) by (field; lra).
    apply (Qle_trans _ (inject_Z a / s * s)); [by rewrite E; apply Qle_refl |].
    apply Qmult_le_compat_r; [done | lra].
  - by apply Qle_shift_div_r.
Qed.

Lemma le_div_scale (b : Z) (x s : Q) :
  (0 < s)%Q -> (x <= inject_Z b / s)%Q <-> (x * s <= inject_Z b)%Q.
Proof.
  intros Hs. split; intros H.
  - assert (E : (inject_Z b / s * s == inject_Z b)%Q) by (field; lra).
    apply (Qle_trans _ (inject_Z b / s * s)); [| by rewrite E; apply Qle_refl].
    apply Qmult_le_compat_r; [done | lra].
  - by apply Qle_shift_div_l.
Qed.

(** Rounding to [n] decimals keeps a value between two bounds that have
    [n] decimals themselves. *)
Lemma py_round_between (a b : Z) (x : Q) (n : nat) :
  let scale := inject_Z (10 ^ Z.of_nat n) in
  (inject_Z a / scale <= x)%Q -> (x <= inject_Z b / scale)%Q ->
  (inject_Z a / scale <= py_round x n)%Q
  /\ (py_round x n <= inject_Z b / scale)%Q.
Proof.
  intros scale Ha Hb. unfold py_round. fold scale.
  pose proof (scale_pos n) as Hs. fold scale in Hs.
  apply div_scale_le in Ha; [|done]. apply le_div_scale in Hb; [|done].
  destruct (round_half_even_between a b (x * scale) Ha Hb) as [H1 H2].
  rewrite Zle_Qle in H1. rewrite Zle_Qle in H2.
  assert (0 <= / scale)%Q by (apply Qinv_le_0_compat; lra).
  unfold Qdiv. split; by apply Qmult_le_compat_r.
Qed.

Lemma clamp_between (lo hi x : Q) :
  (lo <= hi)%Q ->
  (lo <= py_max lo (py_min hi x))%Q /\ (py_max lo (py_min hi x) <= hi)%Q.
Proof.
  intros Hle. unfold py_max, py_min.
  destruct (x ?= hi)%Q eqn:H1;
    [apply Qeq_alt in H1 | apply Qlt_alt in H1 | apply Qgt_alt in H1].
  - destruct (hi ?= lo)%Q eqn:H2;
      [apply Qeq_alt in H2 | apply Qlt_alt in H2 | apply Qgt_alt in H2];
      split; lra.
  - destruct (x ?= lo)%Q eqn:H2;
      [apply Qeq_alt in H2 | apply Qlt_alt in H2 | apply Qgt_alt in H2];
      split; lra.
  - destruct (hi ?= lo)%Q eqn:H2;
      [apply Qeq_alt in H2 | apply Qlt_alt in H2 | apply Qgt_alt in H2];
      split; lra.
Qed.

(** A clamped value rounded: it stays in every range that contains the
    clamp and whose ends have [n] decimals. *)
Lemma round_clamp_between (lo hi lo' hi' x : Q) (a b : Z) (n : nat) :
  (lo' <= hi')%Q -> (lo <= lo')%Q -> (hi' <= hi)%Q ->
  (lo == inject_Z a / inject_Z (10 ^ Z.of_nat n))%Q ->
  (hi == inject_Z b / inject_Z (10 ^ Z.of_nat n))%Q ->
  (lo <= py_round (py_max lo' (py_min hi' x)) n)%Q
  /\ (py_round (py_max lo' (py_min hi' x)) n <= hi)%Q.
Proof.
  intros Hle Hlo Hhi Ea Eb.
  destruct (clamp_between lo' hi' x Hle) as [H1 H2].
  destruct (py_round_between a b (py_max lo' (py_min hi' x)) n) as [H3 H4].
  - rewrite <- Ea. eapply Qle_trans; eauto.
  - rewrite <- Eb. eapply Qle_trans; eauto.
  - rewrite <- Ea in H3. rewrite <- Eb in H4. done.
Qed.

End Rounding.

(** ** Telemetry store *)

Section Store.

Implicit Types (h : heap) (l : loc) (d : dict) (key : string) (v : pyval).

Lemma setitem_lookup l key v h :
  setitem l key v h !! l = <[key := v]> <$> h !! l.
Proof. unfold setitem. by rewrite lookup_alter_eq. Qed.

Lemma setitem_lookup_ne l l' key v h :
  l <> l' -> setitem l key v h !! l' = h !! l'.
Proof. intros. unfold setitem. by rewrite lookup_alter_ne. Qed.

Lemma setitem_insert l key v d h :
  setitem l key v (<[l := d]> h) = <[l := <[key := v]> d]> h.
Proof.
  unfold setitem. apply map_eq. intros l'.
  destruct (decide (l = l')) as [->|].
  - by rewrite lookup_alter_eq, !lookup_insert_eq.
  - by rewrite lookup_alter_ne, !lookup_insert_ne.
Qed.

Lemma getitem_setitem l key key' v h :
  getitem l key' (setitem l key v h)
  = if decide (key = key') then (fun _ => v) <$> h !! l else getitem l key' h.
Proof.
  unfold getitem. rewrite setitem_lookup.
  destruct (h !! l) as [d|]; simpl; [|by case_decide].
  case_decide; subst; [by rewrite lookup_insert_eq | by rewrite lookup_insert_ne].
Qed.

Lemma getitem_setitem_ne l l' key key' v h :
  l <> l' -> getitem l' key' (setitem l key v h) = getitem l' key' h.
Proof. intros. unfold getitem. by rewrite setitem_lookup_ne. Qed.

Lemma merged_lookup dm metrics key :
  merged dm metrics !! key
  = (fun old => match metrics !! key with
                | Some value => of_metric value
                | None => old
                end) <$> dm !! key.
Proof. unfold merged. rewrite map_lookup_imap. by destruct (dm !! key). Qed.

Lemma merged_dom dm metrics : dom (merged dm metrics) = dom dm.
Proof.
  apply set_eq. intros key. rewrite !elem_of_dom, merged_lookup.
  by rewrite fmap_is_Some.
Qed.

Lemma merged_empty dm : merged dm ∅ = dm.
Proof.
  apply map_eq. intros key. rewrite merged_lookup, lookup_empty.
  by destruct (dm !! key).
Qed.

(** The loop touches the metrics dict only, and leaves it [merged]. *)
Lemma store_items_merged lm dm metrics h :
  h !! lm = Some dm ->
  store_items lm metrics h = <[lm := merged dm metrics]> h.
Proof.
  intros Hlm. unfold store_items.
  apply (map_fold_weak_ind
           (fun r (m : gmap string (option Q)) => r = <[lm := merged dm m]> h)).
  - rewrite merged_empty. by rewrite insert_id.
  - intros key value m r Hnone ->.
    unfold has_key, getitem. rewrite lookup_insert_eq. simpl.
    rewrite merged_lookup.
    destruct (dm !! key) as [old|] eqn:Hold; simpl.
    + rewrite setitem_insert. f_equal. apply map_eq. intros key'.
      rewrite merged_lookup.
      destruct (decide (key = key')) as [<-|Hne].
      * by rewrite !lookup_insert_eq, Hold.
      * by rewrite !lookup_insert_ne, merged_lookup.
    + f_equal. apply map_eq. intros key'. rewrite !merged_lookup.
      destruct (decide (key = key')) as [<-|Hne].
      * by rewrite Hold.
      * by rewrite lookup_insert_ne.
Qed.

Lemma store_ok_metrics self h :
  store_ok self h ->
  exists d lm dm,
    h !! _snapshot self = Some d
    /\ d !! "metrics"%string = Some (VRef lm)
    /\ h !! lm = Some dm
    /\ lm <> _snapshot self
    /\ (forall key v', dm !! key = Some v' -> is_atom v' = true).
Proof.
  intros (d & lm & Hd & Hm & Hflat & _).
  destruct (Hflat _ _ Hm) as (dm & Hdm & Hatoms).
  exists d, lm, dm. repeat split; try done.
  intros ->. rewrite Hd in Hdm. injection Hdm as <-.
  by specialize (Hatoms _ _ Hm).
Qed.

Lemma set_connected_stamped self connected last_error now d h :
  h !! _snapshot self = Some d ->
  set_connected self connected last_error now h
  = <[_snapshot self := stamped d connected last_error now]> h.
Proof.
  intros Hd.
  transitivity (set_connected self connected last_error now
                  (<[_snapshot self := d]> h)); [by rewrite insert_id|].
  unfold set_connected, stamped.
  by rewrite !setitem_insert.
Qed.

(** [update_metrics] on a well-shaped store: it returns, the metrics dict
    is [merged] and the snapshot dict is stamped. *)
Lemma update_metrics_ok self metrics connected last_error now h d lm dm :
  h !! _snapshot self = Some d ->
  d !! "metrics"%string = Some (VRef lm) ->
  h !! lm = Some dm ->
  lm <> _snapshot self ->
  update_metrics self metrics connected last_error now h
  = Ok (<[_snapshot self := stamped d connected last_error now]>
          (<[lm := merged dm metrics]> h)).
Proof.
  intros Hd Hm Hdm Hne. unfold update_metrics, getitem.
  rewrite Hd. simpl. rewrite Hm.
  rewrite (store_items_merged _ _ _ _ Hdm).
  fold (set_connected self connected last_error now
          (<[lm := merged dm metrics]> h)).
  rewrite (set_connected_stamped _ _ _ _ d); [done|].
  by rewrite lookup_insert_ne.
Qed.

Lemma flat_insert_atoms h l d v :
  (forall key v', d !! key = Some v' -> is_atom v' = true) ->
  flat h v -> flat (<[l := d]> h) v.
Proof.
  intros Hd. destruct v as [| | | | |l']; simpl; try done.
  intros (d' & Hd' & Hatoms).
  destruct (decide (l = l')) as [->|Hne].
  - exists d. by rewrite lookup_insert_eq.
  - exists d'. by rewrite lookup_insert_ne.
Qed.

Lemma merged_atoms dm metrics :
  (forall key v', dm !! key = Some v' -> is_atom v' = true) ->
  forall key v', merged dm metrics !! key = Some v' -> is_atom v' = true.
Proof.
  intros Hdm key v'. rewrite merged_lookup.
  destruct (dm !! key) as [old|] eqn:Hold; simpl; [|done].
  intros [= <-]. destruct (metrics !! key) as [[q|]|]; eauto.
Qed.

(** The shape is kept when the snapshot dict gets atoms stored in it. *)
Lemma stamped_ref d connected last_error now key l :
  stamped d connected last_error now !! key = Some (VRef l) ->
  d !! key = Some (VRef l).
Proof.
  unfold stamped. intros H.
  destruct (decide (key = "updated_at"%string)) as [->|];
    [by simplify_map_eq|].
  destruct (decide (key = "last_error"%string)) as [->|];
    [simplify_map_eq; by destruct last_error|].
  destruct (decide (key = "connected"%string)) as [->|];
    [by simplify_map_eq|].
  by simplify_map_eq.
Qed.

Lemma store_ok_stamp self connected last_error now d h :
  h !! _snapshot self = Some d ->
  store_ok self h ->
  store_ok self (<[_snapshot self := stamped d connected last_error now]> h).
Proof.
  intros Hd (d' & lm & Hd' & Hm & Hflat & Hdist).
  rewrite Hd in Hd'. injection Hd' as <-.
  destruct (store_ok_metrics self h) as (d2 & lm2 & dm & H1 & H2 & Hdm & Hne & Hatoms).
  { by exists d, lm. }
  rewrite Hd in H1. injection H1 as <-.
  rewrite Hm in H2. injection H2 as <-.
  exists (stamped d connected last_error now), lm.
  split; [by rewrite lookup_insert_eq|].
  split; [unfold stamped; by simplify_map_eq|].
  split; [|intros k1 k2 l H1 H2; by eapply Hdist; eapply stamped_ref].
  unfold stamped. intros key v Hv.
  assert (is_atom v = true \/ d !! key = Some v) as [Hat|Hold].
  { destruct (decide (key = "updated_at"%string)) as [->|];
      [left; simplify_map_eq; done|].
    destruct (decide (key = "last_error"%string)) as [->|];
      [left; simplify_map_eq; by destruct last_error|].
    destruct (decide (key = "connected"%string)) as [->|];
      [left; simplify_map_eq; done|].
    right. by simplify_map_eq. }
  - by destruct v.
  - specialize (Hflat _ _ Hold). destruct v as [| | | | |l']; try done.
    destruct Hflat as (d' & Hd' & Hatoms').
    exists d'. split; [|done].
    rewrite lookup_insert_ne; [done|].
    intros <-. rewrite Hd in Hd'. injection Hd' as <-.
    by specialize (Hatoms' _ _ Hm).
Qed.

Lemma set_connected_store_ok self connected last_error now h :
  store_ok self h ->
  store_ok self (set_connected self connected last_error now h).
Proof.
  intros (d & lm & Hd & Hm & Hflat & Hdist).
  rewrite (set_connected_stamped _ _ _ _ d _ Hd).
  apply store_ok_stamp; [done|]. by exists d, lm.
Qed.

Lemma update_metrics_store_ok self metrics connected last_error now h :
  store_ok self h ->
  exists h', update_metrics self metrics connected last_error now h = Ok h'
             /\ store_ok self h'.
Proof.
  intros Hok.
  destruct (store_ok_metrics self h Hok)
    as (d & lm & dm & Hd & Hm & Hdm & Hne & Hatoms).
  eexists. split; [by eapply update_metrics_ok|].
  apply store_ok_stamp; [by rewrite lookup_insert_ne|].
  destruct Hok as (d' & lm' & Hd' & Hm' & Hflat & Hdist).
  rewrite Hd in Hd'. injection Hd' as <-.
  exists d, lm. split; [by rewrite lookup_insert_ne|]. split; [done|].
  split; [|done].
  intros key v Hv. apply flat_insert_atoms; [by apply merged_atoms|].
  by eapply Hflat.
Qed.

Lemma alloc_fresh d h : h !! (alloc d h).1 = None.
Proof. simpl. apply not_elem_of_dom, is_fresh. Qed.

(** [__init__] builds a store of the shape [store_ok], whatever the heap
    holds already. *)
Lemma TelemetryStore_init_ok adapter_host adapter_port h :
  store_ok (TelemetryStore_init adapter_host adapter_port h).1
           (TelemetryStore_init adapter_host adapter_port h).2.
Proof.
  unfold TelemetryStore_init, alloc. simpl.
  set (la := fresh (dom h)).
  set (h1 := <[la := _]> h).
  set (lm := fresh (dom h1)).
  set (h2 := <[lm := _]> h1).
  set (ls := fresh (dom h2)).
  assert (Hlm : lm ∉ dom h1) by apply is_fresh.
  assert (Hls : ls ∉ dom h2) by apply is_fresh.
  assert (lm <> la).
  { intros E. apply Hlm. rewrite E. unfold h1. rewrite dom_insert_L. set_solver. }
  assert (ls <> lm).
  { intros E. apply Hls. rewrite E. unfold h2. rewrite dom_insert_L. set_solver. }
  assert (ls <> la).
  { intros E. apply Hls. rewrite E. unfold h2, h1.
    rewrite !dom_insert_L. set_solver. }
  eexists _, lm. split; [by rewrite lookup_insert_eq|].
  split; [by simplify_map_eq|].
  match goal with |- (forall key v, ?d !! key = Some v -> _) /\ _ =>
    assert (Hvals : forall key v, d !! key = Some v ->
              is_atom v = true
              \/ (key = "adapter"%string /\ v = VRef la)
              \/ (key = "metrics"%string /\ v = VRef lm))
  end.
  { intros key v Hv.
    destruct (decide (key = "connected"%string)) as [->|];
      [left; by simplify_map_eq|].
    destruct (decide (key = "updated_at"%string)) as [->|];
      [left; by simplify_map_eq|].
    destruct (decide (key = "last_error"%string)) as [->|];
      [left; by simplify_map_eq|].
    destruct (decide (key = "adapter"%string)) as [->|];
      [right; left; by simplify_map_eq|].
    destruct (decide (key = "metrics"%string)) as [->|];
      [right; right; by simplify_map_eq|].
    by simplify_map_eq. }
  split.
  2:{ intros k1 k2 l Hk1 Hk2.
      destruct (Hvals _ _ Hk1) as [Hat1|[[E1 F1]|[E1 F1]]];
        destruct (Hvals _ _ Hk2) as [Hat2|[[E2 F2]|[E2 F2]]];
        try done; congruence. }
  intros key v Hv.
  destruct (Hvals _ _ Hv) as [Hat|[[_ ->]|[_ ->]]].
  - by destruct v.
  - simpl. eexists. split.
    { rewrite lookup_insert_ne; [|done]. unfold h2.
      rewrite lookup_insert_ne; [|done]. unfold h1.
      by rewrite lookup_insert_eq. }
    intros k v'.
    destruct (decide (k = "host"%string)) as [->|];
      [intros; by simplify_map_eq|].
    destruct (decide (k = "port"%string)) as [->|];
      [intros; by simplify_map_eq|].
    intros; by simplify_map_eq.
  - simpl. eexists. split.
    { rewrite lookup_insert_ne; [|done]. unfold h2.
      by rewrite lookup_insert_eq. }
    intros k v'. unfold initial_metrics.
    rewrite lookup_union_Some_raw. intros [Hb|[_ Hl]].
    + apply lookup_singleton_Some in Hb as [_ <-]. done.
    + apply elem_of_list_to_map_2 in Hl.
      apply list_elem_of_fmap in Hl as (kv & [= _ ->] & _). done.
Qed.

(** C6: an [update_metrics] call whose mapping has one known key, and
    unknown keys besides, returns; the key then holds the new value, every
    other key of the metrics dict holds what it held, the key set is the
    same, and [updated_at] is the reading of the clock made by the
    call. *)
Theorem update_metrics_single_key (self : TelemetryStore) (h : heap)
    (metrics : gmap string (option Q)) (dm : dict) (key : string)
    (value : option Q) (connected : bool) (last_error : option string)
    (now : string) :
  store_ok self h ->
  metrics_of self h = Some dm ->
  key ∈ dom dm ->
  metrics !! key = Some value ->
  (forall key', key' <> key -> key' ∈ dom metrics -> key' ∉ dom dm) ->
  exists h' dm',
    update_metrics self metrics connected last_error now h = Ok h'
    /\ metrics_of self h' = Some dm'
    /\ dm' !! key = Some (of_metric value)
    /\ (forall key', key' <> key -> dm' !! key' = dm !! key')
    /\ dom dm' = dom dm
    /\ getitem (_snapshot self) "updated_at" h' = Some (VStr now).
Proof.
  intros Hok Hdm Hkey Hval Hothers.
  destruct (store_ok_metrics self h Hok)
    as (d & lm & dm0 & Hd & Hm & Hdm0 & Hne & Hatoms).
  assert (dm0 = dm) as ->.
  { unfold metrics_of, getitem in Hdm. rewrite Hd in Hdm. simpl in Hdm.
    rewrite Hm in Hdm. congruence. }
  exists (<[_snapshot self := stamped d connected last_error now]>
            (<[lm := merged dm metrics]> h)), (merged dm metrics).
  split; [by eapply update_metrics_ok|].
  split.
  { unfold metrics_of, getitem. rewrite lookup_insert_eq. simpl.
    unfold stamped. by simplify_map_eq. }
  split.
  { rewrite merged_lookup, Hval. apply elem_of_dom in Hkey as [old ->]. done. }
  split.
  { intros key' Hne'. rewrite merged_lookup.
    destruct (dm !! key') as [old|] eqn:Hold; [|done]. simpl.
    destruct (metrics !! key') as [v|] eqn:Hv; [|done].
    exfalso. apply (Hothers key' Hne'); apply elem_of_dom; eauto. }
  split; [apply merged_dom|].
  unfold getitem. rewrite lookup_insert_eq. simpl.
  unfold stamped. by simplify_map_eq.
Qed.

Lemma update_metrics_stamps self metrics connected last_error now h h' :
  store_ok self h ->
  update_metrics self metrics connected last_error now h = Ok h' ->
  getitem (_snapshot self) "connected" h' = Some (VBool connected)
  /\ getitem (_snapshot self) "last_error" h' = Some (of_opt_str last_error)
  /\ getitem (_snapshot self) "updated_at" h' = Some (VStr now)
  /\ exists dm, metrics_of self h = Some dm
                /\ metrics_of self h' = Some (merged dm metrics).
Proof.
  intros Hok Hupd.
  destruct (store_ok_metrics self h Hok)
    as (d & lm & dm & Hd & Hm & Hdm & Hne & Hatoms).
  rewrite (update_metrics_ok _ _ _ _ _ _ d lm dm) in Hupd by done.
  injection Hupd as <-.
  unfold metrics_of, getitem. rewrite Hd, !lookup_insert_eq. simpl.
  unfold stamped. simplify_map_eq. eauto 10.
Qed.

Lemma set_connected_metrics self connected last_error now h :
  store_ok self h ->
  metrics_of self (set_connected self connected last_error now h)
  = metrics_of self h
  /\ getitem (_snapshot self) "connected"
       (set_connected self connected last_error now h) = Some (VBool connected)
  /\ getitem (_snapshot self) "last_error"
       (set_connected self connected last_error now h)
     = Some (of_opt_str last_error).
Proof.
  intros Hok.
  destruct (store_ok_metrics self h Hok)
    as (d & lm & dm & Hd & Hm & Hdm & Hne & Hatoms).
  rewrite (set_connected_stamped _ _ _ _ d) by done.
  unfold metrics_of, getitem. rewrite Hd, !lookup_insert_eq. simpl.
  unfold stamped. by simplify_map_eq.
Qed.

Lemma update_metrics_single_key_witness :
  exists h' dm',
    update_metrics demo_store.1
      (<["rpm"%string := Some 1000%Q]> {[ "bogus"%string := None ]})
      true None "2026-01-01T00:00:00+00:00" demo_store.2 = Ok h'
    /\ metrics_of demo_store.1 h' = Some dm'
    /\ dm' !! "rpm"%string = Some (VFloat 1000)
    /\ (forall key', key' <> "rpm"%string ->
          dm' !! key' = initial_metrics !! key')
    /\ dom dm' = dom initial_metrics
    /\ getitem (_snapshot demo_store.1) "updated_at" h'
       = Some (VStr "2026-01-01T00:00:00+00:00").
Proof.
  apply (update_metrics_single_key demo_store.1 demo_store.2 _
           initial_metrics "rpm" (Some 1000%Q)).
  - apply TelemetryStore_init_ok.
  - vm_compute. reflexivity.
  - apply elem_of_dom. eexists. vm_compute. reflexivity.
  - by simplify_map_eq.
  - intros key' Hne Hin Hdom.
    rewrite dom_insert_L, dom_singleton_L in Hin.
    apply elem_of_union in Hin as [Hin|Hin];
      apply elem_of_singleton in Hin; [done|subst key'].
    apply elem_of_dom in Hdom as [v Hv]. by vm_compute in Hv.
Defined.

End Store.

(** ** Deep copies and snapshots *)

Section Trees.

Implicit Types (h : heap) (l : loc) (d : dict) (x y v : pyval) (D : gset loc).

Lemma tree_eq_ref D n h1 l1 h2 l2 :
  tree_eq D (S n) h1 (VRef l1) h2 (VRef l2)
  <-> (l2 ∉ D)
      /\ exists d1 d2,
           h1 !! l1 = Some d1 /\ h2 !! l2 = Some d2
           /\ forall key,
                match d1 !! key, d2 !! key with
                | Some v1, Some v2 => tree_eq D n h1 v1 h2 v2
                | None, None => True
                | _, _ => False
                end.
Proof. done. Qed.

(** Case analysis on two values that are the same tree *)
Lemma tree_eq_inv D n h1 x1 h2 x2 :
  tree_eq D n h1 x1 h2 x2 ->
  (is_atom x1 = true /\ x1 = x2)
  \/ exists n' l1 l2, n = S n' /\ x1 = VRef l1 /\ x2 = VRef l2
                      /\ tree_eq D (S n') h1 (VRef l1) h2 (VRef l2).
Proof.
  destruct n as [|n'], x1 as [| | | | |l1], x2 as [| | | | |l2]; simpl;
    try done; try (intros; left; by split).
  intros H. right. by exists n', l1, l2.
Qed.

Lemma tree_eq_atom D n h1 x h2 : is_atom x = true -> tree_eq D n h1 x h2 x.
Proof. by destruct n, x. Qed.

Lemma tree_eq_atom_l D n h1 x1 h2 x2 :
  is_atom x1 = true -> tree_eq D n h1 x1 h2 x2 -> x2 = x1.
Proof. by destruct n, x1, x2. Qed.

(** A pointwise step from one relation on values to another *)
Lemma items_rel_impl (P R : pyval -> pyval -> Prop) d1 d2 :
  (forall v1 v2, P v1 v2 -> R v1 v2) ->
  (forall key,
     match d1 !! key, d2 !! key with
     | Some v1, Some v2 => P v1 v2
     | None, None => True
     | _, _ => False
     end) ->
  forall key,
    match d1 !! key, d2 !! key with
    | Some v1, Some v2 => R v1 v2
    | None, None => True
    | _, _ => False
    end.
Proof.
  intros HR Hd key. specialize (Hd key).
  destruct (d1 !! key), (d2 !! key); auto.
Qed.

Lemma tree_eq_fuel D n : forall m h1 x1 h2 x2,
  tree_eq D n h1 x1 h2 x2 -> (n <= m)%nat -> tree_eq D m h1 x1 h2 x2.
Proof.
  induction n as [|n IH]; intros m h1 x1 h2 x2 H Hle;
    destruct (tree_eq_inv _ _ _ _ _ _ H)
      as [[Hat <-]|(n' & l1 & l2 & Hn & -> & -> & H')];
    try (by apply tree_eq_atom); try done.
  destruct m as [|m]; [lia|].
  apply tree_eq_ref in H as (HD & d1 & d2 & H1 & H2 & Hd).
  apply tree_eq_ref. split; [done|]. exists d1, d2. do 2 (split; [done|]).
  eapply items_rel_impl; [|exact Hd]. simpl.
  intros. apply IH; [done|lia].
Qed.

Lemma tree_eq_anti D D' n : forall h1 x1 h2 x2,
  D' ⊆ D -> tree_eq D n h1 x1 h2 x2 -> tree_eq D' n h1 x1 h2 x2.
Proof.
  induction n as [|n IH]; intros h1 x1 h2 x2 Hsub H;
    destruct (tree_eq_inv _ _ _ _ _ _ H)
      as [[Hat <-]|(n' & l1 & l2 & Hn & -> & -> & H')];
    try (by apply tree_eq_atom); try done.
  apply tree_eq_ref in H as (HD & d1 & d2 & H1 & H2 & Hd).
  apply tree_eq_ref. split; [by intros ?; apply HD, Hsub|]. exists d1, d2.
  do 2 (split; [done|]).
  eapply items_rel_impl; [|exact Hd]. simpl.
  intros. by apply IH.
Qed.

(** The second heap may change inside [D] and grow. *)
Lemma tree_eq_heap_r D n : forall h1 x1 h2 h2' x2,
  (forall l, l ∉ D -> l ∈ dom h2 -> h2' !! l = h2 !! l) ->
  tree_eq D n h1 x1 h2 x2 -> tree_eq D n h1 x1 h2' x2.
Proof.
  induction n as [|n IH]; intros h1 x1 h2 h2' x2 Hagree H;
    destruct (tree_eq_inv _ _ _ _ _ _ H)
      as [[Hat <-]|(n' & l1 & l2 & Hn & -> & -> & H')];
    try (by apply tree_eq_atom); try done.
  apply tree_eq_ref in H as (HD & d1 & d2 & H1 & H2 & Hd).
  apply tree_eq_ref. split; [done|]. exists d1, d2. split; [done|].
  split; [rewrite Hagree; [done..|by apply elem_of_dom]|].
  eapply items_rel_impl; [|exact Hd]. simpl.
  intros. by eapply IH.
Qed.

(** The first heap may grow. *)
Lemma tree_eq_heap_l D n : forall h1 h1' x1 h2 x2,
  frame h1 h1' ->
  tree_eq D n h1 x1 h2 x2 -> tree_eq D n h1' x1 h2 x2.
Proof.
  induction n as [|n IH]; intros h1 h1' x1 h2 x2 Hframe H;
    destruct (tree_eq_inv _ _ _ _ _ _ H)
      as [[Hat <-]|(n' & l1 & l2 & Hn & -> & -> & H')];
    try (by apply tree_eq_atom); try done.
  apply tree_eq_ref in H as (HD & d1 & d2 & H1 & H2 & Hd).
  apply tree_eq_ref. split; [done|]. exists d1, d2.
  split; [rewrite Hframe; [done|by apply elem_of_dom]|]. split; [done|].
  eapply items_rel_impl; [|exact Hd]. simpl.
  intros. by eapply IH.
Qed.

(** A tree of the heap [h], read in a heap [hc] that [h] has grown to,
    can be read in [h] again. *)
Lemma tree_eq_back D n : forall h hc x h2 x2,
  frame h hc ->
  tree_eq ∅ n h x h x ->
  tree_eq D n hc x h2 x2 -> tree_eq D n h x h2 x2.
Proof.
  induction n as [|n IH]; intros h hc x h2 x2 Hframe Hself H;
    destruct (tree_eq_inv _ _ _ _ _ _ H)
      as [[Hat <-]|(n' & l1 & l2 & Hn & -> & -> & H')];
    try (by apply tree_eq_atom); try done.
  apply tree_eq_ref in H as (HD & d1 & d2 & H1 & H2 & Hd).
  apply tree_eq_ref in Hself as (_ & d & d' & Hl & Hl' & Hdd).
  rewrite Hl in Hl'. injection Hl' as <-.
  rewrite Hframe in H1 by (by apply elem_of_dom).
  rewrite Hl in H1. injection H1 as <-.
  apply tree_eq_ref. split; [done|]. exists d, d2. do 2 (split; [done|]).
  intros key. specialize (Hd key). specialize (Hdd key).
  destruct (d !! key) as [v|], (d2 !! key) as [v2|]; try done.
  by eapply IH.
Qed.

Lemma tree_eq_sym n : forall h1 x1 h2 x2,
  tree_eq ∅ n h1 x1 h2 x2 -> tree_eq ∅ n h2 x2 h1 x1.
Proof.
  induction n as [|n IH]; intros h1 x1 h2 x2 H;
    destruct (tree_eq_inv _ _ _ _ _ _ H)
      as [[Hat <-]|(n' & l1 & l2 & Hn & -> & -> & H')];
    try (by apply tree_eq_atom); try done.
  apply tree_eq_ref in H as (HD & d1 & d2 & H1 & H2 & Hd).
  apply tree_eq_ref. split; [apply not_elem_of_empty|]. exists d2, d1.
  do 2 (split; [done|]).
  intros key. specialize (Hd key).
  destruct (d1 !! key), (d2 !! key); try done. by apply IH.
Qed.

Lemma tree_eq_trans D n : forall h1 x1 h2 x2 h3 x3,
  tree_eq ∅ n h1 x1 h2 x2 -> tree_eq D n h2 x2 h3 x3 ->
  tree_eq D n h1 x1 h3 x3.
Proof.
  induction n as [|n IH]; intros h1 x1 h2 x2 h3 x3 H12 H23;
    destruct (tree_eq_inv _ _ _ _ _ _ H12)
      as [[Hat <-]|(n' & l1 & l2 & Hn & -> & -> & H')];
    try done;
    try (apply tree_eq_atom_l in H23 as ->; [by apply tree_eq_atom | done]).
  apply tree_eq_inv in H23 as [[? _]|(m & ? & l3 & [= <-] & [= <-] & -> & H23)];
    [done|].
  apply tree_eq_ref in H12 as (_ & d1 & d2 & H1 & H2 & Hd).
  apply tree_eq_ref in H23 as (HD & d2' & d3 & H2' & H3 & Hd').
  rewrite H2 in H2'. injection H2' as <-.
  apply tree_eq_ref. split; [done|]. exists d1, d3. do 2 (split; [done|]).
  intros key. specialize (Hd key). specialize (Hd' key).
  destruct (d1 !! key), (d2 !! key), (d3 !! key); try done. by eapply IH.
Qed.

Lemma frame_refl h : frame h h.
Proof. by intros l. Qed.

Lemma frame_dom h h' : frame h h' -> dom h ⊆ dom h'.
Proof.
  intros Hf l Hl. apply elem_of_dom. rewrite (Hf l Hl). by apply elem_of_dom.
Qed.

Lemma frame_trans h1 h2 h3 : frame h1 h2 -> frame h2 h3 -> frame h1 h3.
Proof.
  intros H12 H23 l Hl. rewrite H23, H12; [done..|].
  by apply (frame_dom _ _ H12).
Qed.

Lemma tree_eq_ref_r D n h1 x1 h2 l2 :
  tree_eq D n h1 x1 h2 (VRef l2) -> l2 ∉ D.
Proof.
  intros H.
  apply tree_eq_inv in H as [[Hat Heq]|(? & ? & ? & _ & _ & [= <-] & H)].
  - by subst x1.
  - by apply tree_eq_ref in H as [? _].
Qed.

Lemma setitem_dom l key v h : dom (setitem l key v h) = dom h.
Proof. unfold setitem. apply dom_alter_L. Qed.

Lemma no_back_fresh h : no_back (dom h) h.
Proof.
  intros l d key l' Hl Hd. apply not_elem_of_dom in Hl. congruence.
Qed.

(** The loop of [deepcopy] over the items of a dict [d] of the heap [h],
    into the new dict [y]; [IHf] is what [deepcopy] does one level
    down. *)
Lemma copy_items_spec h f (y : loc)
    (IHf : forall x hc,
        tree_eq ∅ f hc x hc x ->
        exists v2 hc',
          deepcopy f x hc = Some (v2, hc') /\ frame hc hc'
          /\ no_back (dom hc) hc' /\ tree_eq (dom hc) f hc x hc' v2) :
  y ∉ dom h ->
  forall items hc dacc,
    (forall key v, (key, v) ∈ items -> tree_eq ∅ f h v h v) ->
    NoDup items.*1 ->
    frame h hc -> hc !! y = Some dacc -> no_back (dom h) hc ->
    exists h1 dfin,
      copy_items (deepcopy f) y items hc = Some h1
      /\ frame h h1 /\ no_back (dom h) h1 /\ h1 !! y = Some dfin
      /\ (forall key, key ∉ items.*1 -> dfin !! key = dacc !! key)
      /\ (forall key v, (key, v) ∈ items ->
            exists v2, dfin !! key = Some v2
                       /\ tree_eq (dom h) f h v h1 v2)
      /\ (forall l, l ∈ dom hc -> l <> y -> h1 !! l = hc !! l).
Proof.
  intros Hy. induction items as [|[key v] rest IH];
    intros hc dacc Htrees Hnodup Hframe Hacc Hnb; simpl.
  - exists hc, dacc. repeat split; try done.
    intros key v Hin. by apply elem_of_nil in Hin.
  - assert (Hv : tree_eq ∅ f h v h v) by (apply (Htrees key); left).
    assert (Hvc : tree_eq ∅ f hc v hc v).
    { apply (tree_eq_heap_l _ _ h); [done|].
      apply (tree_eq_heap_r _ _ _ _ h); [|done]. intros l _. apply Hframe. }
    destruct (IHf v hc Hvc) as (v2 & hc' & Hdc & Hfr & Hnb' & Htr).
    rewrite Hdc.
    assert (Hyc : y ∈ dom hc) by (by apply elem_of_dom).
    assert (Hsub : dom h ⊆ dom hc) by (by apply frame_dom).
    assert (Hacc' : hc' !! y = Some dacc) by (by rewrite Hfr).
    apply NoDup_cons in Hnodup as [Hkey Hnodup]. simpl in Hkey.
    destruct (IH (setitem y key v2 hc') (<[key := v2]> dacc))
      as (h1 & dfin & Hcp & Hf1 & Hnb1 & Hfin & Hother & Hcopied & Hkeep).
    + intros k v' Hin. apply (Htrees k). by right.
    + done.
    + intros l Hl. rewrite setitem_lookup_ne by (intros <-; done).
      rewrite Hfr by (by apply Hsub). by apply Hframe.
    + by rewrite setitem_lookup, Hacc'.
    + intros l d k l' Hl Hd Hk.
      destruct (decide (l = y)) as [->|Hne].
      * rewrite setitem_lookup, Hacc' in Hd. injection Hd as <-.
        destruct (decide (k = key)) as [->|Hnk].
        -- rewrite lookup_insert_eq in Hk. injection Hk as ->.
           apply tree_eq_ref_r in Htr. intros ?. by apply Htr, Hsub.
        -- rewrite lookup_insert_ne in Hk by done. by eapply (Hnb y).
      * rewrite setitem_lookup_ne in Hd by done.
        destruct (decide (l ∈ dom hc)) as [Hin|Hout].
        -- rewrite Hfr in Hd by done. by eapply (Hnb l).
        -- intros ?. eapply (Hnb' l); eauto.
    + exists h1, dfin. split; [done|]. split; [done|]. split; [done|].
      split; [done|]. split; [|split].
      * intros k Hk. apply not_elem_of_cons in Hk as [Hk1 Hk2].
        rewrite Hother by done. by rewrite lookup_insert_ne.
      * intros k v' Hin. apply elem_of_cons in Hin as [[= -> ->]|Hin];
          [|by apply Hcopied].
        exists v2. split; [by rewrite Hother, lookup_insert_eq|].
        apply (tree_eq_anti (dom hc)); [done|].
        apply (tree_eq_heap_r _ _ _ _ hc').
        { intros l Hl Hl'. rewrite Hkeep.
          - apply setitem_lookup_ne. by intros <-.
          - by rewrite setitem_dom.
          - by intros ->. }
        by apply (tree_eq_back _ _ h hc).
      * intros l Hl Hne. rewrite Hkeep; [|rewrite setitem_dom|done].
        -- rewrite setitem_lookup_ne by done. by apply Hfr.
        -- by apply (frame_dom _ _ Hfr).
Qed.

(** [deepcopy] of a tree of the heap returns; it leaves every object of
    the heap as it is, and the value it returns is the same tree, made of
    new objects only, which hold no reference to an old one. *)
Lemma deepcopy_spec f : forall x h,
  tree_eq ∅ f h x h x ->
  exists y h',
    deepcopy f x h = Some (y, h') /\ frame h h'
    /\ no_back (dom h) h' /\ tree_eq (dom h) f h x h' y.
Proof.
  induction f as [|f IHf]; intros x h Hself.
  - destruct x; try done;
      (eexists _, h; split; [done|]; split; [apply frame_refl|];
       split; [apply no_back_fresh|done]).
  - destruct x as [| | | | |l];
      try (eexists _, h; split; [done|]; split; [apply frame_refl|];
           split; [apply no_back_fresh|done]).
    apply tree_eq_ref in Hself as (_ & d & d' & Hl & Hl' & Hd).
    rewrite Hl in Hl'. injection Hl' as <-.
    simpl. rewrite Hl.
    set (y := fresh (dom h)).
    assert (Hy : y ∉ dom h) by apply is_fresh.
    destruct (copy_items_spec h f y IHf Hy (map_to_list d)
                (<[y := ∅]> h) ∅)
      as (h1 & dfin & Hcp & Hf1 & Hnb1 & Hfin & Hother & Hcopied & Hkeep).
    + intros key v Hin. apply elem_of_map_to_list in Hin.
      specialize (Hd key). by rewrite Hin in Hd.
    + apply NoDup_fst_map_to_list.
    + intros l' Hl'. apply lookup_insert_ne. by intros <-.
    + apply lookup_insert_eq.
    + intros l' d' key l'' Hout Hd' Hk.
      destruct (decide (l' = y)) as [->|Hne].
      * rewrite lookup_insert_eq in Hd'. by injection Hd' as <-.
      * rewrite lookup_insert_ne in Hd' by done.
        apply not_elem_of_dom in Hout. congruence.
    + rewrite Hcp. exists (VRef y), h1. split; [done|]. split; [done|].
      split; [done|]. cbn [tree_eq]. split; [done|].
      exists d, dfin. split; [done|]. split; [done|].
      intros key. destruct (d !! key) as [v|] eqn:Hk.
      * destruct (Hcopied key v) as (v2 & -> & Htr); [|done].
        by apply elem_of_map_to_list.
      * rewrite Hother, lookup_empty; [done|].
        intros Hin. apply list_elem_of_fmap in Hin as ([k v] & -> & Hin).
        apply elem_of_map_to_list in Hin. simpl in Hk. congruence.
Qed.

Lemma same_value_sym h1 x1 h2 x2 :
  same_value h1 x1 h2 x2 -> same_value h2 x2 h1 x1.
Proof. intros [n H]. exists n. by apply tree_eq_sym. Qed.

Lemma same_value_trans h1 x1 h2 x2 h3 x3 :
  same_value h1 x1 h2 x2 -> same_value h2 x2 h3 x3 ->
  same_value h1 x1 h3 x3.
Proof.
  intros [n H12] [m H23]. exists (n `max` m)%nat.
  apply (tree_eq_trans _ _ _ _ h2 x2);
    (eapply tree_eq_fuel; [done|lia]).
Qed.

(** A store of the right shape holds a tree two dicts deep. *)
Lemma store_ok_tree self h :
  store_ok self h ->
  tree_eq ∅ 2 h (VRef (_snapshot self)) h (VRef (_snapshot self)).
Proof.
  intros (d & lm & Hd & Hm & Hflat & _).
  apply tree_eq_ref. split; [apply not_elem_of_empty|].
  exists d, d. do 2 (split; [done|]).
  intros key. destruct (d !! key) as [v|] eqn:Hk; [|done].
  specialize (Hflat _ _ Hk). destruct v as [| | | | |l]; try done.
  destruct Hflat as (d' & Hd' & Hatoms).
  apply tree_eq_ref. split; [apply not_elem_of_empty|].
  exists d', d'. do 2 (split; [done|]).
  intros key'. destruct (d' !! key') as [v'|] eqn:Hk'; [|done].
  apply tree_eq_atom. by eapply Hatoms.
Qed.

Lemma store_ok_frame self h h' :
  store_ok self h -> frame h h' -> store_ok self h'.
Proof.
  intros (d & lm & Hd & Hm & Hflat & Hdist) Hframe.
  exists d, lm. split; [rewrite Hframe; [done|by apply elem_of_dom]|].
  split; [done|]. split; [|done].
  intros key v Hk. specialize (Hflat _ _ Hk).
  destruct v as [| | | | |l]; try done.
  destruct Hflat as (d' & Hd' & Hatoms). exists d'.
  split; [rewrite Hframe; [done|by apply elem_of_dom]|done].
Qed.

(** [snapshot] on a store of the right shape: it returns a new object,
    the same tree as the snapshot of the store, and leaves the heap it
    found as it is. *)
Lemma snapshot_spec self h :
  store_ok self h ->
  exists lr h1,
    snapshot self h = Some (VRef lr, h1)
    /\ (lr ∉ dom h) /\ frame h h1 /\ no_back (dom h) h1
    /\ same_value h (VRef (_snapshot self)) h1 (VRef lr).
Proof.
  intros Hok. pose proof (store_ok_tree _ _ Hok) as Htree.
  assert (Hsize : (2 <= S (size h))%nat).
  { destruct Hok as (d & _ & Hd & _).
    destruct (decide (size h = 0%nat)) as [Hz|]; [|lia].
    apply map_size_empty_iff in Hz. subst h. by rewrite lookup_empty in Hd. }
  destruct (deepcopy_spec (S (size h)) (VRef (_snapshot self)) h)
    as (r & h1 & Hcp & Hfr & Hnb & Htr).
  { by eapply tree_eq_fuel. }
  destruct r as [| | | | |lr];
    try (by apply tree_eq_inv in Htr as [[? ?]|(? & ? & ? & ? & ? & ? & ?)]).
  exists lr, h1. split; [done|]. split; [by eapply tree_eq_ref_r|].
  split; [done|]. split; [done|].
  eexists. eapply tree_eq_anti; [|done]. apply empty_subseteq.
Qed.

(** Following keys from a value outside [D] stays outside [D]. *)
Lemma resolve_outside D h path : forall x v,
  no_back D h -> outside D x -> resolve h x path = Some v -> outside D v.
Proof.
  induction path as [|key path IH]; intros x v Hnb Hx Hres; simpl in Hres.
  - by injection Hres as <-.
  - destruct x as [| | | | |l]; try done.
    unfold getitem in Hres.
    destruct (h !! l) as [d|] eqn:Hl; [|done]. simpl in Hres.
    destruct (d !! key) as [v'|] eqn:Hk; [|done].
    eapply IH; [done| |done].
    destruct v' as [| | | | |l']; try done. by eapply (Hnb l).
Qed.

(** A statement of the caller on a structure outside [D] leaves the
    objects of [D] as they are. *)
Lemma mutate_outside D h root m :
  D ⊆ dom h -> no_back D h -> outside D root ->
  D ⊆ dom (mutate root m h)
  /\ no_back D (mutate root m h)
  /\ (forall l, l ∈ D -> mutate root m h !! l = h !! l).
Proof.
  intros Hsub Hnb Hroot. destruct m as [path key e|path key]; simpl.
  - destruct (resolve h root path) as [[| | | | |l]|] eqn:Hres; try done.
    pose proof (resolve_outside _ _ _ _ _ Hnb Hroot Hres) as Hl. simpl in Hl.
    assert (forall v h', D ⊆ dom h' -> no_back D h' -> outside D v ->
              (forall l', l' ∈ D -> h' !! l' = h !! l') ->
              D ⊆ dom (setitem l key v h')
              /\ no_back D (setitem l key v h')
              /\ (forall l', l' ∈ D -> setitem l key v h' !! l' = h !! l'))
      as Hset.
    { intros v h' Hsub' Hnb' Hv Hsame. split; [by rewrite setitem_dom|].
      split.
      - intros l1 d1 k1 l2 Hl1 Hd1 Hk1.
        destruct (decide (l1 = l)) as [->|Hne].
        + rewrite setitem_lookup in Hd1.
          destruct (h' !! l) as [d0|] eqn:Hd0; [|done].
          injection Hd1 as <-.
          destruct (decide (k1 = key)) as [->|Hnk].
          * rewrite lookup_insert_eq in Hk1. injection Hk1 as ->. done.
          * rewrite lookup_insert_ne in Hk1 by done. by eapply (Hnb' l).
        + rewrite setitem_lookup_ne in Hd1 by done. by eapply (Hnb' l1).
      - intros l' Hl'. rewrite setitem_lookup_ne by (by intros <-).
        by apply Hsame. }
    destruct e as [v|path'|]; simpl.
    + destruct (is_atom v) eqn:Hat; [|done].
      apply Hset; try done. by destruct v.
    + destruct (resolve h root path') as [v|] eqn:Hres'; [|done]. simpl.
      apply Hset; try done. by eapply resolve_outside.
    + assert (Hnew : fresh (dom h) ∉ dom h) by apply is_fresh.
      apply Hset.
      * rewrite dom_insert_L. intros x Hx. apply elem_of_union. right.
        by apply Hsub.
      * intros l1 d1 k1 l2 Hl1 Hd1 Hk1.
        destruct (decide (l1 = fresh (dom h))) as [->|Hne].
        -- rewrite lookup_insert_eq in Hd1. by injection Hd1 as <-.
        -- rewrite lookup_insert_ne in Hd1 by done. by eapply (Hnb l1).
      * simpl. intros ?. by apply Hnew, Hsub.
      * intros l' Hl'. apply lookup_insert_ne. intros <-. by apply Hnew, Hsub.
  - destruct (resolve h root path) as [[| | | | |l]|] eqn:Hres; try done.
    pose proof (resolve_outside _ _ _ _ _ Hnb Hroot Hres) as Hl. simpl in Hl.
    split; [by rewrite dom_alter_L|]. split.
    + intros l1 d1 k1 l2 Hl1 Hd1 Hk1.
      destruct (decide (l1 = l)) as [->|Hne].
      * rewrite lookup_alter_eq in Hd1.
        destruct (h !! l) as [d0|] eqn:Hd0; [|done]. injection Hd1 as <-.
        apply lookup_delete_Some in Hk1 as [_ Hk1]. by eapply (Hnb l).
      * rewrite lookup_alter_ne in Hd1 by done. by eapply (Hnb l1).
    + intros l' Hl'. apply lookup_alter_ne. by intros <-.
Qed.

Lemma mutate_all_outside D root ms : forall h,
  D ⊆ dom h -> no_back D h -> outside D root ->
  forall l, l ∈ D -> mutate_all root ms h !! l = h !! l.
Proof.
  induction ms as [|m ms IH]; intros h Hsub Hnb Hroot l Hl; [done|].
  destruct (mutate_outside D h root m Hsub Hnb Hroot) as (Hsub' & Hnb' & Hsame).
  change (mutate_all root (m :: ms) h)
    with (mutate_all root ms (mutate root m h)).
  rewrite IH by done. by apply Hsame.
Qed.

Lemma same_value_frame self h h' :
  store_ok self h -> frame h h' ->
  same_value h (VRef (_snapshot self)) h' (VRef (_snapshot self)).
Proof.
  intros Hok Hframe. exists 2%nat.
  apply (tree_eq_heap_r _ _ _ _ h); [|by apply store_ok_tree].
  intros l _. apply Hframe.
Qed.

(** C7: [snapshot] returns; what it returns is the same tree as the
    snapshot the store holds; whatever the caller then does to the
    structure it got, every object that was in the heap, the store's
    among them, stays as it was, and a later [snapshot] returns the same
    tree as it returns when the caller has done nothing. *)
Theorem snapshot_independent (self : TelemetryStore) (h : heap)
    (ms : list mutation) :
  store_ok self h ->
  exists r h1,
    snapshot self h = Some (r, h1)
    /\ same_value h (VRef (_snapshot self)) h1 r
    /\ frame h (mutate_all r ms h1)
    /\ exists r2 h3 r2' h3',
         snapshot self (mutate_all r ms h1) = Some (r2, h3)
         /\ snapshot self h1 = Some (r2', h3')
         /\ same_value h3 r2 h3' r2'
         /\ same_value h (VRef (_snapshot self)) h3 r2.
Proof.
  intros Hok.
  destruct (snapshot_spec self h Hok) as (lr & h1 & Hsn & Hlr & Hfr & Hnb & Hsame).
  exists (VRef lr), h1. split; [done|]. split; [done|].
  assert (Hfr2 : frame h (mutate_all (VRef lr) ms h1)).
  { intros l Hl.
    rewrite (mutate_all_outside (dom h)); try done.
    - by apply Hfr.
    - by apply frame_dom. }
  split; [done|].
  assert (Hok1 : store_ok self h1) by (by apply (store_ok_frame self h)).
  assert (Hok2 : store_ok self (mutate_all (VRef lr) ms h1))
    by (by apply (store_ok_frame self h)).
  destruct (snapshot_spec self _ Hok2) as (lr2 & h3 & Hsn2 & _ & _ & _ & Hsame2).
  destruct (snapshot_spec self _ Hok1) as (lr1 & h3' & Hsn1 & _ & _ & _ & Hsame1).
  exists (VRef lr2), h3, (VRef lr1), h3'. split; [done|]. split; [done|].
  pose proof (same_value_frame self h _ Hok Hfr2) as Hroot2.
  pose proof (same_value_frame self h _ Hok Hfr) as Hroot1.
  split.
  - apply (same_value_trans _ _ _ _ _ _ (same_value_sym _ _ _ _ Hsame2)).
    apply (same_value_trans _ _ _ _ _ _ (same_value_sym _ _ _ _ Hroot2)).
    exact (same_value_trans _ _ _ _ _ _ Hroot1 Hsame1).
  - exact (same_value_trans _ _ _ _ _ _ Hroot2 Hsame2).
Qed.

End Trees.

Lemma snapshot_independent_witness :
  let ms :=
    [ MSet ["metrics"%string] "rpm" (MAtom (VFloat 9999));
      MSet [] "connected" (MAtom (VBool true));
      MDel ["adapter"%string] "host";
      MSet [] "metrics" (MPath ["adapter"%string]);
      MSet [] "extra" MNewDict ] in
  exists r h1,
    snapshot demo_store.1 demo_store.2 = Some (r, h1)
    /\ same_value demo_store.2 (VRef (_snapshot demo_store.1)) h1 r
    /\ frame demo_store.2 (mutate_all r ms h1)
    /\ exists r2 h3 r2' h3',
         snapshot demo_store.1 (mutate_all r ms h1) = Some (r2, h3)
         /\ snapshot demo_store.1 h1 = Some (r2', h3')
         /\ same_value h3 r2 h3' r2'
         /\ same_value demo_store.2 (VRef (_snapshot demo_store.1)) h3 r2.
Proof.
  intros ms.
  apply (snapshot_independent demo_store.1 demo_store.2 ms).
  apply TelemetryStore_init_ok.
Defined.

(** ** Protocol client *)

Section ClientFacts.

Variable rx : nat -> read_event.

Local Arguments decode_ascii_ignore : simpl never.
Local Arguments contains : simpl never.





End ClientFacts.



(** ** Telemetry poller *)

Section PollerFacts.

Variable rx : nat -> read_event.
Variable clock : nat -> string.
Variable fuel : nat.















End PollerFacts.




(** ** Simulation mode *)

(** C8: whatever [sin] returns, whatever is drawn and whatever the clock
    shows, every metric of a simulated tick lies, after rounding, in the
    range declared for it. *)
Theorem simulation_within_clamps (sin : Q -> Q) (rnd : nat -> Q) (t : Q)
    (i : nat) :
  Forall
    (fun '(key, (lo, hi)) =>
       exists v, simulation_metrics sin rnd t i !! key = Some (Some v)
                 /\ (lo <= v)%Q /\ (v <= hi)%Q)
    declared_clamps.
Proof.
  unfold declared_clamps, simulation_metrics.
  repeat first [apply Forall_nil_2 | apply Forall_cons_2];
    (eexists; split; [by simplify_map_eq |]).
  - apply (round_clamp_between _ _ _ _ _ 0 2200 1); qconst.
  - apply (round_clamp_between _ _ _ _ _ 7000 70000 1); qconst.
  - apply (round_clamp_between _ _ _ _ _ 650 1100 1); qconst.
  - apply (round_clamp_between _ _ _ _ _ 0 1000 1); qconst.
  - apply (round_clamp_between _ _ _ _ _ 0 1000 1); qconst.
  - apply (round_clamp_between _ _ _ _ _ 0 1000 1); qconst.
  - apply (round_clamp_between _ _ _ _ _ 100 550 1); qconst.
  - apply (round_clamp_between _ _ _ _ _ 1210 1440 2); qconst.
Qed.

(** ** Configuration *)



(** ** Response parser *)

Section ParserFacts.

Lemma in_all_ascii c : In c all_ascii.
Proof.
  unfold all_ascii. rewrite <- (ascii_nat_embedding c).
  apply in_map, in_seq. pose proof (nat_ascii_bounded c). lia.
Qed.

Lemma eqc_eq a b : eqc a b = true <-> a = b.
Proof. apply Ascii.eqb_eq. Qed.

Lemma eqc_refl a : eqc a a = true.
Proof. by apply eqc_eq. Qed.

Lemma eqt_eq a : forall b, eqt a b = true <-> a = b.
Proof.
  induction a as [|x a IH]; intros [|y b]; simpl; try done.
  rewrite andb_true_iff, eqc_eq, IH. split; [by intros [-> ->]|].
  by intros [= -> ->].
Qed.

(** What the code relies on about hexadecimal digits *)
Lemma is_hex_facts c :
  is_hex c = true ->
  isspace c = false /\ eqc c prompt = false /\ eqc c CR = false
  /\ eqc c LF = false /\ eqc c space = false
  /\ is_hex_upper (upper_char c) = true.
Proof.
  assert (Hb : forallb (fun c =>
             negb (is_hex c)
             || (negb (isspace c) && negb (eqc c prompt) && negb (eqc c CR)
                 && negb (eqc c LF) && negb (eqc c space)
                 && is_hex_upper (upper_char c))) all_ascii = true)
    by (by vm_compute).
  rewrite forallb_forall in Hb. specialize (Hb c (in_all_ascii c)).
  intros Hhex. rewrite Hhex in Hb. simpl in Hb.
  repeat (apply andb_prop in Hb as [Hb ?]).
  repeat split; by apply negb_true_iff || done.
Qed.

Lemma is_hex_upper_facts c :
  is_hex_upper c = true ->
  isspace c = false /\ eqc c prompt = false /\ eqc c space = false
  /\ hex_line_char c = true /\ eqc "S"%char c = false.
Proof.
  assert (Hb : forallb (fun c =>
             negb (is_hex_upper c)
             || (negb (isspace c) && negb (eqc c prompt)
                 && negb (eqc c space) && hex_line_char c
                 && negb (eqc "S"%char c))) all_ascii = true)
    by (by vm_compute).
  rewrite forallb_forall in Hb. specialize (Hb c (in_all_ascii c)).
  intros Hhex. rewrite Hhex in Hb. simpl in Hb.
  repeat (apply andb_prop in Hb as [Hb ?]).
  repeat split; by apply negb_true_iff || done.
Qed.

(** The expected mode never reads like the first two characters of the
    command: a line that echoes the command is never taken for data. *)
Lemma mode_never_echo c1 c2 mode :
  py_int 16 [c1; c2] = Some mode ->
  eqt (upper [c1; c2]) (format_02X (mode + 64)) = false.
Proof.
  assert (Hb : forallb (fun a => forallb (fun b =>
            match py_int 16 [a; b] with
            | Some m => negb (eqt (upper [a; b]) (format_02X (m + 64)))
            | None => true
            end) all_ascii) all_ascii = true) by (by vm_compute).
  rewrite forallb_forall in Hb. specialize (Hb c1 (in_all_ascii c1)).
  rewrite forallb_forall in Hb. specialize (Hb c2 (in_all_ascii c2)).
  intros Hm. rewrite Hm in Hb. by apply negb_true_iff.
Qed.

Lemma head_rev (s : text) : head (rev s) = last s.
Proof.
  induction s as [|c s IH] using rev_ind; [done|].
  by rewrite rev_app_distr, last_snoc.
Qed.

Lemma lstrip_id (s : text) :
  (forall c, head s = Some c -> isspace c = false) -> lstrip s = s.
Proof. destruct s as [|c s]; [done|]. intros H. simpl. by rewrite H. Qed.

Lemma strip_id (s : text) :
  (forall c, head s = Some c -> isspace c = false) ->
  (forall c, last s = Some c -> isspace c = false) ->
  strip s = s.
Proof.
  intros Hh Hl. unfold strip, rstrip. rewrite (lstrip_id s Hh).
  rewrite lstrip_id; [apply rev_involutive|].
  intros c. rewrite head_rev. apply Hl.
Qed.

Lemma upper_pairs_map pairs :
  hex_pairs pairs -> upper_pairs (map upper_pair pairs).
Proof.
  intros H. apply Forall_map. eapply Forall_impl; [exact H|].
  intros p [H1 H2]. simpl. split; by apply is_hex_facts.
Qed.

Lemma upper_spaced pairs :
  upper (spaced pairs) = spaced (map upper_pair pairs).
Proof.
  destruct pairs as [|p ps]; [done|]. unfold upper, spaced. simpl.
  do 2 f_equal. induction ps as [|q ps IH]; [done|]. simpl. by rewrite IH.
Qed.

Lemma upper_unspaced pairs :
  upper (unspaced pairs) = unspaced (map upper_pair pairs).
Proof.
  unfold upper, unspaced.
  induction pairs as [|q ps IH]; [done|]. simpl. by rewrite IH.
Qed.

(** A data line of one byte at least starts and ends with a digit. *)
Lemma spaced_ends (P : ascii -> Prop) p ps :
  Forall (fun q => P (fst q) /\ P (snd q)) (p :: ps) ->
  exists b mid, spaced (p :: ps) = fst p :: mid ++ [b] /\ P b.
Proof.
  intros H. apply Forall_cons in H as [[Hp1 Hp2] Hps]. unfold spaced.
  destruct ps as [|q ps _] using rev_ind.
  - exists (snd p), []. by split.
  - apply Forall_app in Hps as [_ Hq]. apply Forall_singleton in Hq as [_ Hq].
    exists (snd q), (snd p :: flat_map (fun q => space :: byte_text q) ps
                      ++ [space; fst q]).
    split; [|done]. rewrite flat_map_app. simpl.
    by rewrite <- !app_assoc.
Qed.

Lemma unspaced_ends (P : ascii -> Prop) p ps :
  Forall (fun q => P (fst q) /\ P (snd q)) (p :: ps) ->
  exists b mid, unspaced (p :: ps) = fst p :: mid ++ [b] /\ P b.
Proof.
  intros H. apply Forall_cons in H as [[Hp1 Hp2] Hps]. unfold unspaced.
  destruct ps as [|q ps _] using rev_ind.
  - exists (snd p), []. by split.
  - apply Forall_app in Hps as [_ Hq]. apply Forall_singleton in Hq as [_ Hq].
    exists (snd q), (snd p :: flat_map byte_text ps ++ [fst q]).
    split; [|done]. simpl. rewrite flat_map_app. simpl.
    by rewrite <- !app_assoc.
Qed.

(** A line that starts and ends with a digit, with or without the prompt
    after it, has nothing to strip. *)
Lemma strip_data_line a mid b (tail : text) :
  is_hex a = true -> is_hex b = true ->
  tail = [] \/ tail = [prompt] ->
  strip ((a :: mid ++ [b]) ++ tail) = (a :: mid ++ [b]) ++ tail.
Proof.
  intros Ha Hb Htail. apply strip_id.
  - simpl. intros c [= <-]. by apply is_hex_facts.
  - destruct Htail as [-> | ->].
    + rewrite app_nil_r, app_comm_cons, last_snoc. intros c [= <-].
      by apply is_hex_facts.
    + rewrite last_snoc. by intros c [= <-].
Qed.

Lemma spaced_chars pairs :
  upper_pairs pairs ->
  Forall (fun c => hex_line_char c = true /\ eqc c prompt = false)
    (spaced pairs).
Proof.
  intros H. destruct pairs as [|p ps]; [done|].
  apply Forall_cons in H as [[Hp1 Hp2] Hps]. unfold spaced. simpl.
  apply Forall_cons. split; [split; by apply is_hex_upper_facts|].
  apply Forall_cons. split; [split; by apply is_hex_upper_facts|].
  induction Hps as [|q ps [Hq1 Hq2] Hps IH]; [done|]. simpl.
  apply Forall_cons. split; [done|].
  apply Forall_cons. split; [split; by apply is_hex_upper_facts|].
  apply Forall_cons. split; [split; by apply is_hex_upper_facts|]. done.
Qed.

Lemma unspaced_chars pairs :
  upper_pairs pairs ->
  Forall (fun c => is_hex_upper c = true) (unspaced pairs).
Proof.
  intros H. unfold unspaced.
  induction H as [|q ps [Hq1 Hq2] Hps IH]; [done|]. simpl.
  by repeat (apply Forall_cons; split).
Qed.

Lemma remove_char_id a (s : text) :
  Forall (fun c => eqc c a = false) s -> remove_char a s = s.
Proof.
  unfold remove_char. induction 1 as [|c s Hc Hs IH]; [done|].
  simpl. by rewrite Hc, IH.
Qed.

Lemma remove_prompt_tail (tail : text) :
  tail = [] \/ tail = [prompt] -> remove_char prompt (upper tail) = [].
Proof. by intros [-> | ->]. Qed.

(** What [scan_line] makes of a spaced and of an unspaced data line
    before it looks at the tokens *)
Lemma norm_spaced pairs tail :
  hex_pairs pairs -> tail = [] \/ tail = [prompt] ->
  remove_char prompt (upper (strip (spaced pairs ++ tail)))
  = spaced (map upper_pair pairs).
Proof.
  intros Hhex Htail.
  assert (strip (spaced pairs ++ tail) = spaced pairs ++ tail) as ->.
  { destruct pairs as [|p ps]; [by destruct Htail as [-> | ->]|].
    destruct (spaced_ends (fun c => is_hex c = true) p ps Hhex)
      as (b & mid & -> & Hb).
    apply strip_data_line; try done. by apply Forall_cons in Hhex as [[? _] _]. }
  unfold upper. rewrite map_app. fold (upper (spaced pairs)) (upper tail).
  unfold remove_char. rewrite List.filter_app.
  fold (remove_char prompt (upper tail)).
  rewrite remove_prompt_tail, app_nil_r by done.
  rewrite upper_spaced. apply remove_char_id.
  eapply Forall_impl; [apply spaced_chars, upper_pairs_map, Hhex|].
  by intros c [_ ?].
Qed.

Lemma norm_unspaced pairs tail :
  hex_pairs pairs -> tail = [] \/ tail = [prompt] ->
  remove_char prompt (upper (strip (unspaced pairs ++ tail)))
  = unspaced (map upper_pair pairs).
Proof.
  intros Hhex Htail.
  assert (strip (unspaced pairs ++ tail) = unspaced pairs ++ tail) as ->.
  { destruct pairs as [|p ps]; [by destruct Htail as [-> | ->]|].
    destruct (unspaced_ends (fun c => is_hex c = true) p ps Hhex)
      as (b & mid & -> & Hb).
    apply strip_data_line; try done. by apply Forall_cons in Hhex as [[? _] _]. }
  unfold upper. rewrite map_app. fold (upper (unspaced pairs)) (upper tail).
  unfold remove_char. rewrite List.filter_app.
  fold (remove_char prompt (upper tail)).
  rewrite remove_prompt_tail, app_nil_r by done.
  rewrite upper_unspaced. apply remove_char_id.
  eapply Forall_impl; [apply unspaced_chars, upper_pairs_map, Hhex|].
  intros c Hc. by apply is_hex_upper_facts.
Qed.

Lemma split_ws_blocks ps : forall cur,
  upper_pairs ps -> cur <> [] ->
  split_ws_aux cur (flat_map (fun q => space :: byte_text q) ps)
  = rev cur :: map byte_text ps.
Proof.
  induction ps as [|q ps IH]; intros cur Hps Hcur; simpl.
  - by destruct cur.
  - apply Forall_cons in Hps as [[Hq1 Hq2] Hps].
    apply is_hex_upper_facts in Hq1 as (Hq1 & _).
    apply is_hex_upper_facts in Hq2 as (Hq2 & _).
    change (isspace space) with true. cbn iota.
    rewrite Hq1, Hq2. rewrite IH by done.
    by destruct cur.
Qed.

Lemma split_ws_spaced pairs :
  upper_pairs pairs -> split_ws (spaced pairs) = map byte_text pairs.
Proof.
  intros H. destruct pairs as [|p ps]; [done|].
  apply Forall_cons in H as [[Hp1 Hp2] Hps].
  apply is_hex_upper_facts in Hp1 as (Hp1 & _).
  apply is_hex_upper_facts in Hp2 as (Hp2 & _).
  unfold split_ws, spaced. simpl. rewrite Hp1, Hp2.
  by rewrite split_ws_blocks.
Qed.

Lemma contains_space_spaced q1 q2 qs :
  contains space (spaced (q1 :: q2 :: qs)) = true.
Proof.
  unfold contains. apply existsb_exists. exists space.
  split; [|apply eqc_refl]. unfold spaced. simpl. tauto.
Qed.

Lemma contains_space_unspaced pairs :
  upper_pairs pairs -> contains space (unspaced pairs) = false.
Proof.
  intros H. apply unspaced_chars in H. unfold contains.
  induction H as [|c s Hc Hs IH]; [done|]. cbn [existsb].
  rewrite IH, orb_false_r.
  apply is_hex_upper_facts in Hc as (_ & _ & Hc & _).
  unfold eqc in *. by rewrite Ascii.eqb_sym.
Qed.

Lemma split_hex_pairs_unspaced pairs :
  upper_pairs pairs -> _split_hex_pairs (unspaced pairs) = map byte_text pairs.
Proof.
  intros H. unfold _split_hex_pairs.
  rewrite remove_char_id.
  2:{ eapply Forall_impl; [by apply unspaced_chars|].
      intros c Hc. by apply is_hex_upper_facts. }
  assert (Nat.even (length (unspaced pairs)) = true) as ->.
  { clear H. unfold unspaced. induction pairs as [|q ps IH]; [done|].
    simpl. exact IH. }
  simpl. clear H. unfold unspaced.
  induction pairs as [|[a b] ps IH]; [done|]. simpl. by rewrite IH.
Qed.

Lemma not_control (line : text) :
  forallb hex_line_char line = true ->
  existsb (eqt line) CONTROL_LINES = false.
Proof.
  intros Hhex. apply not_true_is_false. intros H.
  apply existsb_exists in H as (c & Hin & Heq).
  apply eqt_eq in Heq. subst c. unfold CONTROL_LINES in Hin. simpl in Hin.
  repeat (destruct Hin as [<-|Hin]; [by vm_compute in Hhex|]). done.
Qed.

(** [scan_line] on a raw line that normalises to a data line [line] *)
Lemma scan_data_line em ep cu raw (line : text) :
  remove_char prompt (upper (strip raw)) = line ->
  (exists c r, line = c :: r /\ is_hex_upper c = true) ->
  forallb hex_line_char line = true ->
  scan_line em ep cu raw
  = if eqt line cu then None
    else match (if contains space line then split_ws line
                else _split_hex_pairs line) with
         | t0 :: t1 :: rest =>
             if negb (eqt t0 em) || negb (eqt t1 ep) then None
             else ints16 rest
         | _ => None
         end.
Proof.
  intros Hline (c & r & -> & Hc) Hhex. unfold scan_line. rewrite Hline.
  rewrite (not_control _ Hhex).
  assert (startswith (of_string "SEARCHING") (c :: r) = false) as ->.
  { apply is_hex_upper_facts in Hc as (_ & _ & _ & _ & Hc).
    cbn [of_string list_ascii_of_string startswith]. by rewrite Hc. }
  unfold HEX_LINE_RE_fullmatch. rewrite Hhex.
  rewrite orb_false_r. cbn [orb negb].
  destruct (eqt (c :: r) cu); [done|].
  destruct (if contains space (c :: r) then _ else _) as [|t0 [|t1 rest]];
    done.
Qed.

Lemma take_upper n (s : text) : take n (upper s) = upper (take n s).
Proof.
  revert s. induction n as [|n IH]; intros [|c s]; simpl; try done.
  f_equal. apply IH.
Qed.

(** The loop body gives the same for a spaced data line and for its
    unspaced form. *)
Lemma scan_line_spaced_unspaced command mode ep pairs tail :
  py_int 16 (take 2 command) = Some mode ->
  hex_pairs pairs -> tail = [] \/ tail = [prompt] ->
  scan_line (format_02X (mode + 64)) ep (upper command) (spaced pairs ++ tail)
  = scan_line (format_02X (mode + 64)) ep (upper command)
      (unspaced pairs ++ tail).
Proof.
  intros Hmode Hhex Htail.
  destruct pairs as [|p [|p2 ps]]; [done|reflexivity|].
  pose proof (upper_pairs_map _ Hhex) as HQ.
  pose proof (norm_spaced _ _ Hhex Htail) as Hs.
  pose proof (norm_unspaced _ _ Hhex Htail) as Hu.
  set (Q := map upper_pair (p :: p2 :: ps)) in *.
  assert (Hq1 : is_hex_upper (upper_char (fst p)) = true).
  { by apply Forall_cons in HQ as [[? _] _]. }
  rewrite (scan_data_line _ _ _ _ _ Hs), (scan_data_line _ _ _ _ _ Hu).
  2:{ by eexists _, _. }
  2:{ apply forallb_forall. intros c Hc. apply list_elem_of_In in Hc.
      pose proof (unspaced_chars _ HQ) as Hall.
      rewrite Forall_forall in Hall. by apply is_hex_upper_facts, Hall. }
  2:{ by eexists _, _. }
  2:{ apply forallb_forall. intros c Hc. apply list_elem_of_In in Hc.
      pose proof (spaced_chars _ HQ) as Hall.
      rewrite Forall_forall in Hall. by apply Hall. }
  rewrite (contains_space_unspaced _ HQ), (split_hex_pairs_unspaced _ HQ).
  subst Q. cbn [map]. rewrite contains_space_spaced.
  rewrite <- (map_cons upper_pair p2 ps), <- (map_cons upper_pair p (p2 :: ps)).
  rewrite (split_ws_spaced _ HQ). cbn [map].
  set (X := if negb _ || negb _ then None else ints16 _).
  assert (Hecho : forall line : text,
             take 2 line = byte_text (upper_pair p) ->
             eqt line (upper command) = true -> X = None).
  { intros line Htake Heq. apply eqt_eq in Heq. subst line.
    rewrite take_upper in Htake.
    destruct (take 2 command) as [|c1 [|c2 [|? ?]]]; try done.
    pose proof (mode_never_echo c1 c2 mode Hmode) as Hne.
    rewrite Htake in Hne. subst X. by rewrite Hne. }
  destruct (eqt (spaced _) (upper command)) eqn:E1,
           (eqt (unspaced _) (upper command)) eqn:E2; try done.
  - symmetry. by eapply Hecho; [|exact E1].
  - by eapply Hecho; [|exact E2].
Qed.

Lemma split_on_cons sep (s : text) : split_on sep s <> [].
Proof.
  destruct s as [|c s]; simpl; [done|].
  destruct (eqc c sep); [done|]. by destruct (split_on sep s).
Qed.

Lemma split_on_app sep (a b : text) :
  split_on sep (a ++ sep :: b) = split_on sep a ++ split_on sep b.
Proof.
  induction a as [|c a IH]; simpl.
  - by rewrite eqc_refl.
  - destruct (eqc c sep); [by rewrite IH|]. rewrite IH.
    pose proof (split_on_cons sep a). by destruct (split_on sep a).
Qed.

Lemma split_on_plain (s : text) :
  Forall plain s -> split_on LF s = [s].
Proof.
  induction 1 as [|c s [_ Hc] Hs IH]; [done|]. simpl. by rewrite Hc, IH.
Qed.

Lemma replace_plain (s : text) :
  Forall plain s -> replace_char CR LF s = s.
Proof.
  unfold replace_char. induction 1 as [|c s [Hc _] Hs IH]; [done|].
  simpl. by rewrite Hc, IH.
Qed.

Lemma replace_break c : is_break c -> (if eqc c CR then LF else c) = LF.
Proof. by intros [-> | ->]. Qed.

(** The lines of a response around a line [mid] that stands between two
    line breaks: the other lines do not depend on [mid]. *)
Lemma lines_around (before after : text) :
  ends_line before -> starts_line after ->
  exists L1 L2, forall mid : text,
    Forall plain mid ->
    split_on LF (replace_char CR LF (before ++ mid ++ after))
    = L1 ++ mid :: L2.
Proof.
  intros Hb Ha.
  assert (exists L2, forall mid : text,
             Forall plain mid ->
             split_on LF (replace_char CR LF (mid ++ after)) = mid :: L2)
    as [L2 HL2].
  { destruct Ha as [-> | (c & r & -> & Hc)].
    - exists []. intros mid Hmid.
      by rewrite app_nil_r, replace_plain, split_on_plain.
    - exists (split_on LF (replace_char CR LF r)). intros mid Hmid.
      unfold replace_char. rewrite map_app. cbn [map].
      rewrite (replace_break c Hc).
      fold (replace_char CR LF mid) (replace_char CR LF r).
      by rewrite split_on_app, replace_plain, split_on_plain. }
  destruct Hb as [-> | (r & c & -> & Hc)].
  - exists [], L2. intros mid Hmid. by apply HL2.
  - exists (split_on LF (replace_char CR LF r)), L2. intros mid Hmid.
    rewrite <- app_assoc. cbn [app].
    unfold replace_char at 1. rewrite map_app. cbn [map].
    rewrite (replace_break c Hc).
    fold (replace_char CR LF r) (replace_char CR LF (mid ++ after)).
    by rewrite split_on_app, HL2.
Qed.

Lemma first_return_app {A} (f : text -> option A) l1 l2 :
  first_return f (l1 ++ l2)
  = match first_return f l1 with
    | Some r => Some r
    | None => first_return f l2
    end.
Proof.
  induction l1 as [|l l1 IH]; [done|]. simpl. by destruct (f l).
Qed.

Lemma spaced_plain pairs : hex_pairs pairs -> Forall plain (spaced pairs).
Proof.
  intros H. destruct pairs as [|p ps]; [done|].
  apply Forall_cons in H as [[Hp1 Hp2] Hps]. unfold spaced. simpl.
  apply is_hex_facts in Hp1 as (_ & _ & ? & ? & _).
  apply is_hex_facts in Hp2 as (_ & _ & ? & ? & _).
  do 2 (apply Forall_cons; split; [done|]).
  induction Hps as [|q ps [Hq1 Hq2] Hps IH]; [done|]. simpl.
  apply is_hex_facts in Hq1 as (_ & _ & ? & ? & _).
  apply is_hex_facts in Hq2 as (_ & _ & ? & ? & _).
  by do 3 (apply Forall_cons; split; [done|]).
Qed.

Lemma unspaced_plain pairs : hex_pairs pairs -> Forall plain (unspaced pairs).
Proof.
  intros H. unfold unspaced.
  induction H as [|q ps [Hq1 Hq2] Hps IH]; [done|]. simpl.
  apply is_hex_facts in Hq1 as (_ & _ & ? & ? & _).
  apply is_hex_facts in Hq2 as (_ & _ & ? & ? & _).
  by do 2 (apply Forall_cons; split; [done|]).
Qed.

Lemma tail_plain (tail : text) :
  tail = [] \/ tail = [prompt] -> Forall plain tail.
Proof. intros [-> | ->]; [done|]. by apply Forall_singleton. Qed.

(** C5: a response with a spaced data line, and the response with the
    same bytes unspaced in that line, parse to the same result, whatever
    the command and the other lines are; the line may carry the prompt.
    The two documented responses are an instance. *)
Theorem parse_pid_bytes_spacing (command before after tail : text)
    (pairs : list (ascii * ascii)) :
  hex_pairs pairs ->
  tail = [] \/ tail = [prompt] ->
  ends_line before -> starts_line after ->
  parse_pid_bytes command (before ++ (spaced pairs ++ tail) ++ after)
  = parse_pid_bytes command (before ++ (unspaced pairs ++ tail) ++ after).
Proof.
  intros Hhex Htail Hb Ha. unfold parse_pid_bytes.
  destruct (py_int 16 (take 2 command)) as [mode|] eqn:Hmode; [|done].
  destruct (lines_around before after Hb Ha) as (L1 & L2 & Hlines).
  rewrite !Hlines
    by (apply Forall_app; split;
        [by apply spaced_plain || by apply unspaced_plain | by apply tail_plain]).
  f_equal. rewrite !first_return_app. cbn [first_return].
  by rewrite (scan_line_spaced_unspaced command mode).
Qed.

End ParserFacts.

Lemma parse_pid_bytes_spacing_witness :
  parse_pid_bytes (of_string "010C") (of_string "41 0C 1A F8>")
  = parse_pid_bytes (of_string "010C") (of_string "410C1AF8>")
  /\ parse_pid_bytes (of_string "010C") (of_string "410C1AF8>")
     = Ok (Some [26; 248]).
Proof.
  split; [|by vm_compute].
  apply (parse_pid_bytes_spacing (of_string "010C") [] [] [prompt]
           [("4", "1"); ("0", "C"); ("1", "A"); ("F", "8")]%char).
  - by repeat (apply Forall_cons; split; [by vm_compute|]).
  - by right.
  - by left.
  - by left.
Defined.

(** C4: the documented response to the RPM request parses to the two
    bytes 0x1A and 0xF8, and the RPM rule of the registry decodes them to
    1726. *)
Theorem parse_rpm_example :
  exists definition,
    pid_definition "rpm" = Some definition
    /\ parse_pid_bytes (of_string (command definition))
         (of_string "41 0C 1A F8" ++ [CR; CR] ++ of_string ">")
       = Ok (Some [26; 248])
    /\ command definition = "010C"%string
    /\ exists rpm, decoder definition [26; 248] = Ok rpm
                   /\ (rpm == 1726)%Q
                   /\ rpm = ((inject_Z (26 * 256) + inject_Z 248) / 4)%Q.
Proof.
  eexists. split; [reflexivity|].
  split; [by vm_compute|]. split; [reflexivity|].
  eexists. split; [reflexivity|]. split; reflexivity.
Qed.

(** C10: a spaced data line with a token of four hexadecimal digits gives
    a payload value above 255, and the one-byte decoder of the speed takes
    it as it is. *)
Theorem parse_wide_token_example :
  exists definition,
    pid_definition "speed_kmh" = Some definition
    /\ command definition = "010D"%string
    /\ bytes_needed definition = 1%nat
    /\ parse_pid_bytes (of_string "010D") (of_string "41 0D 1AF8")
       = Ok (Some [6904])
    /\ 255 < 6904
    /\ exists speed, pid_metric definition (of_string "41 0D 1AF8")
                       = Ok (Some speed)
                     /\ (speed == 6904)%Q.
Proof.
  eexists. split; [reflexivity|].
  split; [reflexivity|]. split; [reflexivity|].
  split; [by vm_compute|]. split; [lia|].
  eexists. split; [by vm_compute|]. reflexivity.
Qed.

(** ** Documented examples, evaluated *)

Example parse_no_data :
  parse_pid_bytes (of_string "010C") (reply_text (reply "NO DATA")) = Ok None.
Proof. by vm_compute. Qed.

Example parse_voltage_reading :
  exists v, parse_voltage (reply_text (reply "12.6V")) = Some v
            /\ (v == 12.6)%Q.
Proof. eexists. split; [by vm_compute|reflexivity]. Qed.

Example parse_voltage_error : parse_voltage (of_string "ERROR") = None.
Proof. by vm_compute. Qed.

(** A caller that overwrites the RPM in the snapshot it was given sees its
    own value there, and the store still holds none. *)
Example mutated_copy_differs :
  exists r h1,
    snapshot demo_store.1 demo_store.2 = Some (r, h1)
    /\ let h2 := mutate r (MSet ["metrics"%string] "rpm"
                             (MAtom (VFloat 9999))) h1 in
       resolve h2 r ["metrics"; "rpm"]%string = Some (VFloat 9999)
       /\ get_metric demo_store.1 h2 "rpm" = Some VNone.
Proof.
  eexists _, _. split; [vm_compute; reflexivity|].
  split; vm_compute; reflexivity.
Qed.

(** * Further properties *)

(** ** Protocol client: what is written, and how it fails *)

Section ClientMore.

Variable rx : nat -> read_event.

Lemma read_loop_result fuel : forall pos chunks r pos',
  read_loop rx fuel pos chunks = Some (r, pos') ->
  (pos < pos')%nat /\ (forall e, r = Err e -> connection_failure e).
Proof.
  induction fuel as [|fuel IH]; intros pos chunks r pos' H; [done|].
  cbn [read_loop] in H.
  destruct (rx pos) as [[|c raw]|].
  - injection H as <- <-. split; [lia|]. by intros e [= <-].
  - destruct (contains prompt (decode_ascii_ignore (c :: raw))).
    + injection H as <- <-. split; [lia|done].
    + apply IH in H as [? ?]. split; [lia|done].
  - injection H as <- <-. split; [lia|]. by intros e [= <-].
Qed.

(** What a [send] that comes back has done to the client: the command is
    written, once, after what was written before, and the reader has
    moved on. *)
Lemma send_effect fuel self command written r self' :
  _writer self = Some written ->
  ascii_only command = true ->
  send rx fuel self command = Some (r, self') ->
  _writer self' = Some (written ++ [wire command])
  /\ (forall e, r = Err e -> connection_failure e)
  /\ (is_Some (_reader self) -> is_Some (_reader self'))
  /\ _host self' = _host self /\ _port self' = _port self.
Proof.
  intros Hw Hascii. unfold send. rewrite Hw.
  unfold encode_ascii. fold (ascii_only (command ++ [CR])).
  unfold ascii_only in *. rewrite forallb_app, Hascii. cbn [forallb andb].
  change (code CR <? 128) with true. cbn [andb].
  unfold _read_until_prompt. cbn [_reader with_writer].
  destruct (_reader self) as [pos|] eqn:Hr.
  - destruct (read_loop rx fuel pos []) as [[r0 pos']|] eqn:Hloop; [|done].
    intros [= <- <-]. apply read_loop_result in Hloop as [_ Herr].
    cbn. repeat split; eauto.
  - intros [= <- <-]. cbn. repeat split; try done.
    by intros e [= <-].
Qed.

Lemma send_each_effect fuel commands : forall self written r self',
  _writer self = Some written ->
  Forall (fun c => ascii_only c = true) commands ->
  send_each rx fuel commands self = Some (r, self') ->
  exists k,
    (k <= length commands)%nat
    /\ _writer self' = Some (written ++ map wire (take k commands))
    /\ (r = Ok tt -> k = length commands)
    /\ (forall e, r = Err e -> connection_failure e /\ (1 <= k)%nat)
    /\ (is_Some (_reader self) -> is_Some (_reader self')).
Proof.
  induction commands as [|cmd rest IH]; intros self written r self' Hw Hascii H;
    cbn [send_each] in H.
  - injection H as <- <-. exists 0%nat. rewrite app_nil_r.
    repeat split; try done.
  - apply Forall_cons in Hascii as [Hcmd Hrest].
    destruct (send rx fuel self cmd) as [[[resp|e] self1]|] eqn:Hsend; [| |done].
    + destruct (send_effect _ _ _ _ _ _ Hw Hcmd Hsend) as (Hw1 & _ & Hr1 & _).
      destruct (IH _ _ _ _ Hw1 Hrest H) as (k & Hk & Hw' & Hok & Herr & Hr').
      exists (S k). cbn [length take map]. rewrite Hw', <- app_assoc.
      split; [lia|]. split; [done|].
      split; [intros E; f_equal; by apply Hok|].
      split; [intros e E; destruct (Herr e E); split; [done|lia]|].
      intros ?. by apply Hr', Hr1.
    + injection H as <- <-.
      destruct (send_effect _ _ _ _ _ _ Hw Hcmd Hsend) as (Hw1 & Hkind & Hr1 & _).
      exists 1%nat. cbn [length take map]. rewrite take_0.
      split; [lia|]. split; [done|]. split; [done|].
      split; [|done].
      intros e' [= <-]. split; [by apply Hkind|lia].
Qed.


Lemma sync_loop_effect fuel n : forall self written r self',
  _writer self = Some written ->
  sync_loop rx fuel n self = Some (r, self') ->
  r = Ok tt
  /\ exists k,
       (k <= n)%nat /\ (n = 0%nat \/ (1 <= k)%nat)
       /\ _writer self' = Some (written ++ replicate k [CR])
       /\ (is_Some (_reader self) -> is_Some (_reader self')).
Proof.
  induction n as [|n IH]; intros self written r self' Hw H; cbn [sync_loop] in H.
  - injection H as <- <-. split; [done|]. exists 0%nat.
    rewrite app_nil_r. repeat split; try done. by left.
  - unfold _read_until_prompt, writer_write in H. rewrite Hw in H.
    cbn [_reader with_writer fmap option_fmap option_map] in H.
    destruct (_reader self) as [pos|] eqn:Hr.
    + destruct (read_loop rx fuel pos []) as [[[resp|e] pos']|]; [| |done].
      * apply IH with (written := written ++ [[CR]]) in H; [|done].
        destruct H as (-> & k & Hk & _ & Hw' & Hr').
        split; [done|]. exists (S k). cbn [replicate].
        rewrite <- app_assoc in Hw'.
        split; [lia|]. split; [right; lia|]. split; [done|].
        intros _. apply Hr'. by eexists.
      * injection H as <- <-. split; [done|]. exists 1%nat.
        split; [lia|]. split; [right; lia|]. split; [done|].
        intros _. by eexists.
    + injection H as <- <-. split; [done|]. exists 1%nat.
      split; [lia|]. split; [right; lia|]. split; [done|].
      cbn. rewrite Hr. by intros [? ?].
Qed.

(** What [connect] has done when it comes back, the connection being
    opened: one or two bare carriage returns, then the setup commands up
    to the one that failed, or all six. *)
Lemma connect_effect (fuel : nat) (u : unit) (self self' : ELM327Client)
    (r : result unit) :
  connect rx fuel (Ok u) self = Some (r, self') ->
  exists k j,
    (1 <= k <= 2)%nat /\ (j <= 6)%nat
    /\ _writer self'
       = Some (replicate k [CR] ++ map wire (take j setup_commands))
    /\ (r = Ok tt -> j = 6%nat)
    /\ (forall e, r = Err e -> connection_failure e /\ (1 <= j)%nat)
    /\ is_Some (_reader self').
Proof.
  unfold connect, _synchronize_prompt. cbn [_writer with_writer].
  set (self1 := with_writer _ _).
  destruct (sync_loop rx fuel 2 self1) as [[r0 self2]|] eqn:Hsync; [|done].
  destruct (sync_loop_effect fuel 2 self1 [] r0 self2 eq_refl Hsync)
    as (-> & k & Hk & Hk1 & Hw2 & Hr2).
  unfold _initialize_adapter. intros Hinit.
  assert (Hascii : Forall (fun c => ascii_only c = true) setup_commands).
  { unfold setup_commands. by repeat (apply Forall_cons; split; [by vm_compute|]). }
  destruct (send_each_effect fuel setup_commands self2 _ r self' Hw2 Hascii Hinit)
    as (j & Hj & Hw' & Hok & Herr & Hr').
  exists k, j. split; [destruct Hk1; [done|lia]|].
  split; [exact Hj|]. split; [exact Hw'|]. split; [exact Hok|].
  split; [exact Herr|]. apply Hr', Hr2. by eexists.
Qed.

(** X2: [connect] with the connection not opened raises what the opening
    raised and leaves the client as it was.  With the connection opened
    it returns only after it has written one or two bare carriage returns
    (a failure of their reads is swallowed) and then the six setup
    commands in order; and whatever it raises then is a connection
    failure, with the writer still set for [close] to release. *)
Theorem connect_outcome (fuel : nat) (opened : result unit)
    (self self' : ELM327Client) (r : result unit) :
  connect rx fuel opened self = Some (r, self') ->
  match opened, r with
  | Err e, _ => r = Err e /\ self' = self
  | Ok _, Ok _ =>
      exists k, (1 <= k <= 2)%nat
        /\ _writer self'
           = Some (replicate k [CR] ++ map wire setup_commands)
        /\ is_Some (_reader self')
  | Ok _, Err e => connection_failure e /\ is_Some (_writer self')
  end.
Proof.
  intros H. destruct opened as [u|e].
  - destruct (connect_effect _ _ _ _ _ H)
      as (k & j & Hk & Hj & Hw & Hok & Herr & Hr).
    destruct r as [[]|e].
    + exists k. rewrite (Hok eq_refl) in Hw.
      split; [exact Hk|]. split; [exact Hw|exact Hr].
    + split; [by apply Herr|]. by eexists.
  - unfold connect in H. by injection H as <- <-.
Qed.



End ClientMore.

(** ** Telemetry poller: order of the requests, and how a tick fails *)

Section PollerMore.

Variable rx : nat -> read_event.
Variable clock : nat -> string.
Variable fuel : nat.

Lemma client_send_effect command w written :
  _writer (w_client w) = Some written ->
  ascii_only command = true ->
  match client_send rx fuel command w with
  | Returns _ w' =>
      _writer (w_client w') = Some (written ++ [wire command])
      /\ w_heap w' = w_heap w /\ w_clock w' = w_clock w
  | Raises e w' =>
      _writer (w_client w') = Some (written ++ [wire command])
      /\ connection_failure e
      /\ w_heap w' = w_heap w /\ w_clock w' = w_clock w
  | Running => True
  end.
Proof.
  intros Hw Hascii. unfold client_send.
  destruct (send rx fuel (w_client w) command) as [[[resp|e] c]|] eqn:Hsend;
    [| |done];
    destruct (send_effect _ _ _ _ _ _ _ Hw Hascii Hsend) as (Hw' & Hk & _);
    cbn; repeat split; try done.
  by apply Hk.
Qed.


(** The requests of the loop over the registry, as they are written *)
Lemma poll_pids_writes table : forall metrics w written,
  _writer (w_client w) = Some written ->
  Forall (fun kv => ascii_only (of_string (command (snd kv))) = true) table ->
  match poll_pids rx fuel table metrics w with
  | Returns _ w' =>
      _writer (w_client w')
      = Some (written
              ++ map (fun kv => wire (of_string (command (snd kv)))) table)
  | Raises _ w' =>
      exists k, (1 <= k <= length table)%nat
        /\ _writer (w_client w')
           = Some (written
                   ++ map (fun kv => wire (of_string (command (snd kv))))
                        (take k table))
  | Running => True
  end.
Proof.
  induction table as [|[key definition] table IH]; intros metrics w written Hw Ha.
  - cbn. by rewrite app_nil_r.
  - apply Forall_cons in Ha as [Hcmd Ha]. cbn [snd] in Hcmd.
    cbn [poll_pids]. unfold bind at 1.
    pose proof (client_send_effect _ w written Hw Hcmd) as Hs.
    destruct (client_send rx fuel _ w) as [resp w1|e w1|]; [| |done].
    + destruct Hs as (Hw1 & _). unfold bind at 1, lift.
      destruct (pid_metric definition resp) as [value|e].
      * specialize (IH (<[key := value]> metrics) w1 _ Hw1 Ha).
        destruct (poll_pids rx fuel table _ w1) as [m w2|e w2|]; [| |done].
        -- rewrite IH. cbn [map snd]. by rewrite <- app_assoc.
        -- destruct IH as (k & Hk & IH). exists (S k).
           split; [cbn [length]; lia|]. rewrite IH. cbn [firstn map snd].
           by rewrite <- app_assoc.
      * exists 1%nat. split; [cbn [length]; lia|].
        cbn [firstn map snd]. by rewrite Hw1.
    + destruct Hs as (Hw1 & _). exists 1%nat.
      split; [cbn [length]; lia|]. cbn [firstn map snd]. by rewrite Hw1.
Qed.

Lemma registry_ascii :
  Forall (fun kv => ascii_only (of_string (command (snd kv))) = true) PID_TABLE.
Proof.
  unfold PID_TABLE. by repeat (apply Forall_cons; split; [by vm_compute|]).
Qed.

(** X4: in a tick that is published the client has written the seven PID
    requests in the order of the registry and then the voltage request,
    each ended by a carriage return and none before the answer to the one
    before; a tick that raises has written a first part of that list and
    nothing else. *)
Theorem obd_tick_write_order (store : TelemetryStore) (w : world)
    (written : list text) :
  _writer (w_client w) = Some written ->
  match obd_tick rx clock fuel store w with
  | Returns _ w' =>
      _writer (w_client w') = Some (written ++ map wire tick_commands)
  | Raises _ w' =>
      exists k, (1 <= k <= 8)%nat
        /\ _writer (w_client w')
           = Some (written ++ map wire (take k tick_commands))
  | Running => True
  end.
Proof.
  intros Hw. unfold obd_tick. unfold bind at 1.
  pose proof (poll_pids_writes PID_TABLE ∅ w written Hw registry_ascii) as Hp.
  assert (Hcmds : forall k,
             map (fun kv => wire (of_string (command (snd kv)))) (take k PID_TABLE)
             = map wire (take (k `min` 7) tick_commands)).
  { intros k. do 8 (destruct k as [|k]; [reflexivity|]). reflexivity. }
  destruct (poll_pids rx fuel PID_TABLE ∅ w) as [m w1|e w1|]; [| |done].
  - unfold bind at 1.
    pose proof (client_send_effect (of_string "ATRV") w1 _ Hp eq_refl) as Hs.
    destruct (client_send rx fuel _ w1) as [resp w2|e w2|]; [| |done].
    + destruct Hs as (Hw2 & _).
      assert (Hfull : _writer (w_client w2)
                      = Some (written ++ map wire tick_commands)).
      { rewrite Hw2, <- app_assoc. reflexivity. }
      unfold store_update_metrics.
      destruct (update_metrics _ _ _ _ _ _); [done|].
      exists 8%nat. split; [lia|]. by rewrite Hfull.
    + destruct Hs as (Hw2 & _). exists 8%nat. split; [lia|].
      rewrite Hw2, <- app_assoc. reflexivity.
  - destruct Hp as (k & Hk & Hp). exists (k `min` 7)%nat.
    cbn [length PID_TABLE] in Hk. split; [lia|]. by rewrite Hp, Hcmds.
Qed.



End PollerMore.

(** ** Telemetry store: sequences of calls *)

Section StoreMore.

Implicit Types (h : heap) (self : TelemetryStore).

Lemma initial_metrics_dom : dom initial_metrics = metric_keys.
Proof. by vm_compute. Qed.

Lemma store_full_init adapter_host adapter_port h :
  store_full (TelemetryStore_init adapter_host adapter_port h).1
    adapter_host adapter_port
    (TelemetryStore_init adapter_host adapter_port h).2.
Proof.
  split; [apply TelemetryStore_init_ok|].
  unfold TelemetryStore_init, alloc, metrics_of, getitem. simpl.
  set (la := fresh (dom h)).
  set (h1 := <[la := _]> h).
  set (lm := fresh (dom h1)).
  set (h2 := <[lm := _]> h1).
  set (ls := fresh (dom h2)).
  assert (Hlm : lm ∉ dom h1) by apply is_fresh.
  assert (Hls : ls ∉ dom h2) by apply is_fresh.
  assert (lm <> la).
  { intros E. apply Hlm. rewrite E. unfold h1. rewrite dom_insert_L.
    apply elem_of_union. left. by apply elem_of_singleton. }
  assert (ls <> lm).
  { intros E. apply Hls. rewrite E. unfold h2. rewrite dom_insert_L.
    apply elem_of_union. left. by apply elem_of_singleton. }
  assert (ls <> la).
  { intros E. apply Hls. rewrite E. unfold h2, h1. rewrite !dom_insert_L.
    apply elem_of_union. right. apply elem_of_union. left.
    by apply elem_of_singleton. }
  rewrite !lookup_insert_eq. simpl. split.
  - exists initial_metrics. split; [|apply initial_metrics_dom].
    simplify_map_eq. unfold h2. by rewrite lookup_insert_eq.
  - exists la. split; [by simplify_map_eq|].
    rewrite lookup_insert_ne by done. unfold h2.
    rewrite lookup_insert_ne by done. unfold h1.
    by rewrite lookup_insert_eq.
Qed.

(** The parts of a store of the right shape *)
Lemma store_full_parts self host port h :
  store_full self host port h ->
  exists d lm dm la,
    h !! _snapshot self = Some d
    /\ d !! "metrics"%string = Some (VRef lm)
    /\ h !! lm = Some dm /\ dom dm = metric_keys
    /\ d !! "adapter"%string = Some (VRef la)
    /\ h !! la = Some (<["host"%string := VStr host]>
                        {[ "port"%string := VInt port ]})
    /\ lm <> _snapshot self /\ la <> _snapshot self /\ la <> lm.
Proof.
  intros (Hok & (dm & Hdm & Hdom) & la & Ha & Hla).
  destruct (store_ok_metrics self h Hok)
    as (d & lm & dm0 & Hd & Hm & Hdm0 & Hne & Hatoms).
  unfold metrics_of, getitem in Hdm. rewrite Hd in Hdm. simpl in Hdm.
  rewrite Hm, Hdm0 in Hdm. injection Hdm as ->.
  unfold getitem in Ha. rewrite Hd in Ha. simpl in Ha.
  exists d, lm, dm, la. repeat split; try done.
  - intros ->. rewrite Hd in Hla. injection Hla as ->.
    by rewrite lookup_insert_ne, lookup_singleton_ne in Hm.
  - intros ->. destruct Hok as (d' & lm' & Hd' & _ & _ & Hdist).
    rewrite Hd in Hd'. injection Hd' as <-.
    by specialize (Hdist _ _ _ Ha Hm).
Qed.

Lemma store_full_stamp_merge self host port h d lm dm metrics connected
    last_error now :
  store_full self host port h ->
  h !! _snapshot self = Some d ->
  d !! "metrics"%string = Some (VRef lm) ->
  h !! lm = Some dm ->
  store_ok self (<[_snapshot self := stamped d connected last_error now]>
                   (<[lm := merged dm metrics]> h)) ->
  store_full self host port
    (<[_snapshot self := stamped d connected last_error now]>
       (<[lm := merged dm metrics]> h)).
Proof.
  intros Hfull Hd Hm Hdm Hok'.
  destruct (store_full_parts _ _ _ _ Hfull)
    as (d0 & lm0 & dm0 & la & Hd0 & Hm0 & Hdm0 & Hdom & Ha & Hla & Hne1 & Hne2 & Hne3).
  rewrite Hd in Hd0. injection Hd0 as <-.
  rewrite Hm in Hm0. injection Hm0 as <-.
  rewrite Hdm in Hdm0. injection Hdm0 as <-.
  split; [done|]. unfold metrics_of, getitem.
  rewrite lookup_insert_eq. simpl. unfold stamped. split.
  - exists (merged dm metrics). simplify_map_eq.
    split; [done|]. by rewrite merged_dom.
  - exists la. simplify_map_eq. done.
Qed.

Lemma store_full_set_connected self host port h connected last_error now :
  store_full self host port h ->
  store_full self host port (set_connected self connected last_error now h).
Proof.
  intros Hfull.
  destruct (store_full_parts _ _ _ _ Hfull)
    as (d & lm & dm & la & Hd & Hm & Hdm & Hdom & Ha & Hla & Hne1 & Hne2 & Hne3).
  pose proof (set_connected_store_ok self connected last_error now h
                (proj1 Hfull)) as Hok'.
  rewrite (set_connected_stamped _ _ _ _ d) in * by done.
  split; [done|]. unfold metrics_of, getitem.
  rewrite lookup_insert_eq. simpl. unfold stamped. split.
  - exists dm. by simplify_map_eq.
  - exists la. by simplify_map_eq.
Qed.

Lemma store_full_update_metrics self host port h metrics connected last_error
    now :
  store_full self host port h ->
  exists h', update_metrics self metrics connected last_error now h = Ok h'
             /\ store_full self host port h'.
Proof.
  intros Hfull.
  destruct (store_full_parts _ _ _ _ Hfull)
    as (d & lm & dm & la & Hd & Hm & Hdm & Hdom & Ha & Hla & Hne1 & Hne2 & Hne3).
  destruct (update_metrics_store_ok self metrics connected last_error now h
              (proj1 Hfull)) as (h' & Hupd & Hok').
  exists h'. split; [done|].
  rewrite (update_metrics_ok _ _ _ _ _ _ d lm dm) in Hupd by done.
  injection Hupd as <-. by apply (store_full_stamp_merge _ host port).
Qed.

Lemma store_full_frame self host port h h' :
  store_full self host port h -> frame h h' -> store_full self host port h'.
Proof.
  intros Hfull Hframe.
  destruct (store_full_parts _ _ _ _ Hfull)
    as (d & lm & dm & la & Hd & Hm & Hdm & Hdom & Ha & Hla & Hne1 & Hne2 & Hne3).
  split; [by eapply store_ok_frame; [apply Hfull|]|].
  assert (Hin : forall l x, h !! l = Some x -> h' !! l = Some x).
  { intros l x Hl. rewrite Hframe; [done|]. by apply elem_of_dom. }
  unfold metrics_of, getitem. rewrite (Hin _ _ Hd). simpl. rewrite Hm, Ha.
  split; [exists dm|exists la]; split; auto.
Qed.

(** X6: from [__init__] on, whatever calls are made on the store and in
    whatever order, none raises, the store keeps its shape, the metrics
    dict has the same eight keys, and the adapter address is the one the
    store was made with. *)
Theorem store_calls_keep_keys (adapter_host : string) (adapter_port : Z)
    (h0 : heap) (ops : list store_op) :
  exists h',
    run_ops (TelemetryStore_init adapter_host adapter_port h0).1 ops
      (TelemetryStore_init adapter_host adapter_port h0).2 = Some h'
    /\ store_full (TelemetryStore_init adapter_host adapter_port h0).1
         adapter_host adapter_port h'.
Proof.
  pose proof (store_full_init adapter_host adapter_port h0) as Hfull.
  revert Hfull.
  generalize (TelemetryStore_init adapter_host adapter_port h0).2.
  generalize (TelemetryStore_init adapter_host adapter_port h0).1.
  intros self h Hfull. revert h Hfull.
  induction ops as [|op ops IH]; intros h Hfull; [by exists h|].
  cbn [run_ops]. destruct op as [c e now|m c e now|]; cbn [run_op].
  - apply IH. by apply store_full_set_connected.
  - destruct (store_full_update_metrics self _ _ h m c e now Hfull)
      as (h' & -> & Hfull').
    by apply IH.
  - destruct (snapshot_spec self h (proj1 Hfull))
      as (lr & h1 & -> & _ & Hframe & _).
    cbn. apply IH. by eapply store_full_frame.
Qed.

End StoreMore.

Section StoreCompose.

Implicit Types (h : heap) (self : TelemetryStore).

Lemma stamped_twice d c1 e1 n1 c2 e2 n2 :
  stamped (stamped d c1 e1 n1) c2 e2 n2 = stamped d c2 e2 n2.
Proof.
  unfold stamped. apply map_eq. intros key.
  destruct (decide (key = "updated_at"%string)) as [->|];
    [by simplify_map_eq|].
  destruct (decide (key = "last_error"%string)) as [->|];
    [by simplify_map_eq|].
  destruct (decide (key = "connected"%string)) as [->|];
    [by simplify_map_eq|].
  by simplify_map_eq.
Qed.

Lemma merged_twice dm (m1 m2 : gmap string (option Q)) :
  merged (merged dm m1) m2 = merged dm (m2 ∪ m1).
Proof.
  apply map_eq. intros key. rewrite !merged_lookup.
  destruct (dm !! key) as [old|]; [|done]. simpl.
  rewrite lookup_union.
  by destruct (m2 !! key) as [v2|], (m1 !! key) as [v1|].
Qed.

(** X7: two [update_metrics] calls in a row leave the heap as the second
    call alone does when it is given both mappings, the second taking
    precedence on the keys they share. *)
Theorem update_metrics_twice self h (m1 m2 : gmap string (option Q))
    (c1 c2 : bool) (e1 e2 : option string) (n1 n2 : string) :
  store_ok self h ->
  exists h1 h2,
    update_metrics self m1 c1 e1 n1 h = Ok h1
    /\ update_metrics self m2 c2 e2 n2 h1 = Ok h2
    /\ update_metrics self (m2 ∪ m1) c2 e2 n2 h = Ok h2.
Proof.
  intros Hok.
  destruct (store_ok_metrics self h Hok)
    as (d & lm & dm & Hd & Hm & Hdm & Hne & Hatoms).
  set (h1 := <[_snapshot self := stamped d c1 e1 n1]>
                (<[lm := merged dm m1]> h)).
  assert (H1 : update_metrics self m1 c1 e1 n1 h = Ok h1)
    by (by apply update_metrics_ok).
  assert (H2 : update_metrics self m2 c2 e2 n2 h1
               = Ok (<[_snapshot self := stamped (stamped d c1 e1 n1) c2 e2 n2]>
                       (<[lm := merged (merged dm m1) m2]> h1))).
  { apply update_metrics_ok; try done.
    - unfold h1. by rewrite lookup_insert_eq.
    - unfold stamped. by simplify_map_eq.
    - unfold h1. rewrite lookup_insert_ne by done. by rewrite lookup_insert_eq. }
  eexists _, _. split; [exact H1|]. split; [exact H2|].
  rewrite (update_metrics_ok _ _ _ _ _ h d lm dm) by done. f_equal.
  rewrite stamped_twice, merged_twice. unfold h1.
  apply map_eq. intros l.
  destruct (decide (l = _snapshot self)) as [->|Hl1];
    [by simplify_map_eq|].
  destruct (decide (l = lm)) as [->|Hl2]; by simplify_map_eq.
Qed.

(** X8: an [update_metrics] call whose mapping has no key of the metrics
    dict (the empty mapping among them) returns, changes no metric, and
    still sets [connected], [last_error] and [updated_at]. *)
Theorem update_metrics_unknown_only self h (metrics : gmap string (option Q))
    (dm : dict) (connected : bool) (last_error : option string)
    (now : string) :
  store_ok self h ->
  metrics_of self h = Some dm ->
  (forall key, key ∈ dom metrics -> key ∉ dom dm) ->
  exists h',
    update_metrics self metrics connected last_error now h = Ok h'
    /\ metrics_of self h' = Some dm
    /\ getitem (_snapshot self) "connected" h' = Some (VBool connected)
    /\ getitem (_snapshot self) "last_error" h' = Some (of_opt_str last_error)
    /\ getitem (_snapshot self) "updated_at" h' = Some (VStr now).
Proof.
  intros Hok Hdm Hunknown.
  destruct (update_metrics_store_ok self metrics connected last_error now h Hok)
    as (h' & Hupd & _).
  destruct (update_metrics_stamps _ _ _ _ _ _ _ Hok Hupd)
    as (Hc & He & Hu & dm0 & Hdm0 & Hdm').
  rewrite Hdm in Hdm0. injection Hdm0 as <-.
  exists h'. split; [done|]. split; [|done].
  rewrite Hdm'. f_equal. apply map_eq. intros key. rewrite merged_lookup.
  destruct (dm !! key) as [old|] eqn:Hold; [|done]. simpl.
  destruct (metrics !! key) as [v|] eqn:Hv; [|done].
  exfalso. apply (Hunknown key); apply elem_of_dom; eauto.
Qed.

Lemma api_health_reads self h connected :
  store_ok self h ->
  getitem (_snapshot self) "connected" h = Some (VBool connected) ->
  exists h', api_health self h = Some (Ok (health_answer connected), h')
             /\ frame h h'.
Proof.
  intros Hok Hc. unfold api_health.
  destruct (snapshot_spec self h Hok) as (lr & h1 & -> & _ & Hfr & _ & [n Htree]).
  exists h1. split; [|done].
  destruct n as [|n]; [done|].
  apply tree_eq_ref in Htree as (_ & d1 & d2 & H1 & H2 & Hd).
  unfold getitem in *. rewrite H1 in Hc. simpl in Hc.
  rewrite H2. simpl. specialize (Hd "connected"%string). rewrite Hc in Hd.
  destruct (d2 !! "connected"%string) as [v|]; [|done].
  by apply tree_eq_atom_l in Hd as ->.
Qed.

(** X9: [api_health] answers with status "ok" and the [connected] flag
    that the last [set_connected] or [update_metrics] call has set, and
    leaves every object of the heap as it was. *)
Theorem api_health_reports_flag self h (metrics : gmap string (option Q))
    (connected : bool) (last_error : option string) (now : string) :
  store_ok self h ->
  (exists h', api_health self (set_connected self connected last_error now h)
              = Some (Ok (health_answer connected), h')
              /\ frame (set_connected self connected last_error now h) h')
  /\ exists h1 h',
       update_metrics self metrics connected last_error now h = Ok h1
       /\ api_health self h1 = Some (Ok (health_answer connected), h')
       /\ frame h1 h'.
Proof.
  intros Hok. split.
  - apply api_health_reads; [by apply set_connected_store_ok|].
    by destruct (set_connected_metrics self connected last_error now h Hok)
      as (_ & ? & _).
  - destruct (update_metrics_store_ok self metrics connected last_error now h Hok)
      as (h1 & Hupd & Hok1).
    destruct (update_metrics_stamps _ _ _ _ _ _ _ Hok Hupd) as (Hc & _).
    destruct (api_health_reads self h1 connected Hok1 Hc) as (h' & ? & ?).
    by exists h1, h'.
Qed.

(** X10: two calls of [api_state] one after the other each return a new
    object, different from the other and from the snapshot the store
    holds; both are the same tree as that snapshot, the first one still
    after the second call, and the store is left as it was. *)
Theorem api_state_fresh_each_call self h :
  store_ok self h ->
  exists l1 h1 l2 h2,
    api_state self h = Some (VRef l1, h1)
    /\ api_state self h1 = Some (VRef l2, h2)
    /\ l1 <> l2 /\ l1 <> _snapshot self /\ l2 <> _snapshot self
    /\ same_value h (VRef (_snapshot self)) h2 (VRef l1)
    /\ same_value h (VRef (_snapshot self)) h2 (VRef l2)
    /\ frame h h2.
Proof.
  intros Hok. unfold api_state.
  destruct (snapshot_spec self h Hok)
    as (l1 & h1 & Hs1 & Hn1 & Hf1 & _ & [n1 Ht1]).
  pose proof (store_ok_frame _ _ _ Hok Hf1) as Hok1.
  destruct (snapshot_spec self h1 Hok1)
    as (l2 & h2 & Hs2 & Hn2 & Hf2 & _ & [n2 Ht2]).
  exists l1, h1, l2, h2. split; [done|]. split; [done|].
  assert (Hroot : _snapshot self ∈ dom h).
  { destruct Hok as (d & _ & Hd & _). by apply elem_of_dom. }
  assert (Hl1 : l1 ∈ dom h1).
  { destruct n1 as [|n1]; [done|].
    apply tree_eq_ref in Ht1 as (_ & d1 & d2 & _ & H2 & _).
    by apply elem_of_dom. }
  split; [by intros ->|]. split; [by intros ->|].
  split; [intros ->; by apply Hn2, (frame_dom _ _ Hf1)|].
  split.
  { exists n1. eapply tree_eq_heap_r; [|exact Ht1]. intros l _ Hl.
    by apply Hf2. }
  split; [|by eapply frame_trans].
  exists (max 2 n2). eapply tree_eq_back; [exact Hf1| |].
  - eapply tree_eq_fuel; [by apply store_ok_tree|lia].
  - eapply tree_eq_fuel; [exact Ht2|lia].
Qed.

End StoreCompose.

(** ** Simulation mode: the store after a tick, and the fuel level *)

Section SimulationMore.

Variable sin : Q -> Q.
Variable rnd : nat -> Q.

Lemma simulation_metrics_total (t : Q) (i : nat) (key : string) :
  key ∈ metric_keys ->
  exists q, simulation_metrics sin rnd t i !! key = Some (Some q).
Proof.
  unfold metric_keys. rewrite elem_of_list_to_set. intros Hin.
  unfold simulation_metrics.
  repeat (apply elem_of_cons in Hin as [->|Hin];
          [eexists; by simplify_map_eq|]).
  by apply elem_of_nil in Hin.
Qed.

(** X11: a tick of the simulation on a store as [__init__] and the store
    calls leave it returns; afterwards every one of the eight metrics of
    the store is a number, the store is marked connected without error,
    the local clock has advanced by 0.15 and six draws were used; the
    client is not touched. *)
Theorem simulation_tick_fills_store (clock : nat -> string)
    (store : TelemetryStore) (host : string) (port : Z) (t : Q) (i : nat)
    (w : world) :
  store_full store host port (w_heap w) ->
  exists h',
    simulation_tick sin rnd clock store t i w
    = Returns ((t + 0.15)%Q, (i + 6)%nat)
        {| w_client := w_client w; w_heap := h'; w_clock := S (w_clock w) |}
    /\ store_full store host port h'
    /\ (forall key, key ∈ metric_keys ->
         exists q, get_metric store h' key = Some (VFloat q))
    /\ getitem (_snapshot store) "connected" h' = Some (VBool true)
    /\ getitem (_snapshot store) "last_error" h' = Some VNone.
Proof.
  intros Hfull.
  destruct (store_full_update_metrics store host port (w_heap w)
              (simulation_metrics sin rnd (t + 0.15) i) true None
              (clock (w_clock w)) Hfull) as (h' & Hupd & Hfull').
  exists h'. unfold simulation_tick, bind, store_update_metrics, ret.
  rewrite Hupd. split; [done|]. split; [done|].
  destruct (update_metrics_stamps _ _ _ _ _ _ _ (proj1 Hfull) Hupd)
    as (Hc & He & _ & dm & Hdm & Hdm').
  split; [|done].
  intros key Hkey. unfold get_metric. rewrite Hdm'. simpl.
  rewrite merged_lookup.
  destruct Hfull as (_ & (dm0 & Hdm0 & Hdom) & _).
  rewrite Hdm in Hdm0. injection Hdm0 as <-.
  assert (is_Some (dm !! key)) as [old ->].
  { apply elem_of_dom. by rewrite Hdom. }
  destruct (simulation_metrics_total (t + 0.15) i key Hkey) as [q ->].
  by exists q.
Qed.

Lemma round_half_even_near (x : Q) :
  Qfloor x <= round_half_even x <= Qfloor x + 1.
Proof.
  unfold round_half_even.
  destruct (x - inject_Z (Qfloor x) ?= 1 # 2)%Q; [|lia..].
  destruct (Z.even (Qfloor x)); lia.
Qed.

Lemma round_half_even_mono (x y : Q) :
  (x <= y)%Q -> round_half_even x <= round_half_even y.
Proof.
  intros Hxy.
  pose proof (Qfloor_resp_le _ _ Hxy) as Hfl.
  destruct (decide (Qfloor x = Qfloor y)) as [E|NE].
  - unfold round_half_even. rewrite E.
    destruct (x - inject_Z (Qfloor y) ?= 1 # 2)%Q eqn:Hx;
      destruct (y - inject_Z (Qfloor y) ?= 1 # 2)%Q eqn:Hy;
      first [apply Qeq_alt in Hx | apply Qlt_alt in Hx | apply Qgt_alt in Hx];
      first [apply Qeq_alt in Hy | apply Qlt_alt in Hy | apply Qgt_alt in Hy];
      try lia; try (destruct (Z.even (Qfloor y)); lia); exfalso; lra.
  - pose proof (round_half_even_near x). pose proof (round_half_even_near y).
    lia.
Qed.

Lemma py_round_mono (x y : Q) (n : nat) :
  (x <= y)%Q -> (py_round x n <= py_round y n)%Q.
Proof.
  intros Hxy. unfold py_round.
  pose proof (scale_pos n) as Hs.
  set (s := inject_Z (10 ^ Z.of_nat n)) in *.
  assert (0 <= / s)%Q by (apply Qinv_le_0_compat; lra).
  unfold Qdiv. apply Qmult_le_compat_r; [|done].
  rewrite <- Zle_Qle. apply round_half_even_mono.
  apply Qmult_le_compat_r; [done|lra].
Qed.

Lemma clamp_mono (lo hi x y : Q) :
  (x <= y)%Q -> (py_max lo (py_min hi x) <= py_max lo (py_min hi y))%Q.
Proof.
  intros Hxy. unfold py_max, py_min.
  destruct (x ?= hi)%Q eqn:H1;
    [apply Qeq_alt in H1 | apply Qlt_alt in H1 | apply Qgt_alt in H1];
    destruct (y ?= hi)%Q eqn:H2;
    [apply Qeq_alt in H2 | apply Qlt_alt in H2 | apply Qgt_alt in H2
    |apply Qeq_alt in H2 | apply Qlt_alt in H2 | apply Qgt_alt in H2
    |apply Qeq_alt in H2 | apply Qlt_alt in H2 | apply Qgt_alt in H2];
    repeat match goal with
           | |- context [(?a ?= ?b)%Q] =>
               let H := fresh in
               destruct (a ?= b)%Q eqn:H;
               [apply Qeq_alt in H | apply Qlt_alt in H | apply Qgt_alt in H]
           end; lra.
Qed.

(** X12: the simulated fuel level never rises as the local clock goes on,
    whatever is drawn, and from the clock value 1460 on it is 5. *)
Theorem simulation_fuel_falls (t1 t2 : Q) (i1 i2 : nat) :
  (t1 <= t2)%Q ->
  exists f1 f2,
    simulation_metrics sin rnd t1 i1 !! "fuel_level_pct"%string = Some (Some f1)
    /\ simulation_metrics sin rnd t2 i2 !! "fuel_level_pct"%string
       = Some (Some f2)
    /\ (f2 <= f1)%Q
    /\ ((1460 <= t2)%Q -> (f2 == 5)%Q).
Proof.
  intros Ht. unfold simulation_metrics. eexists _, _.
  split; [by simplify_map_eq|]. split; [by simplify_map_eq|].
  split.
  - apply py_round_mono, clamp_mono. lra.
  - intros Hlate.
    assert (py_max 5 (py_min 100 (78 - t2 * 0.05)) = 5%Q) as ->; [|reflexivity].
    unfold py_max, py_min.
    destruct (78 - t2 * 0.05 ?= 100)%Q eqn:H1;
      [apply Qeq_alt in H1 | apply Qlt_alt in H1 | apply Qgt_alt in H1];
      try (exfalso; lra).
    destruct (78 - t2 * 0.05 ?= 5)%Q eqn:H2;
      [apply Qeq_alt in H2 | apply Qlt_alt in H2 | apply Qgt_alt in H2];
      try done. exfalso; lra.
Qed.

End SimulationMore.

(** ** Parser: tokens, the range of the payload, lines that hold no data *)

Section ParserMore.

Lemma pair_ind (P : text -> Prop) :
  P [] -> (forall a, P [a]) -> (forall a b s, P s -> P (a :: b :: s)) ->
  forall s, P s.
Proof.
  intros H0 H1 H2 s.
  assert (P s /\ forall a, P (a :: s)) as [? _]; [|done].
  induction s as [|b s [IH1 IH2]]; [by split|]. split; [apply IH2|].
  intros a. by apply H2.
Qed.

Lemma pairs_of_concat (s : text) : concat (pairs_of s) = s.
Proof.
  induction s as [|a|a b s IH] using pair_ind; [done..|].
  simpl. by rewrite IH.
Qed.

Lemma pairs_of_length (s : text) :
  Nat.even (length s) = true ->
  Forall (fun t => length t = 2%nat) (pairs_of s).
Proof.
  induction s as [|a|a b s IH] using pair_ind; [done..|].
  intros H. simpl. apply Forall_cons. split; [done|]. by apply IH.
Qed.

(** X13: [_split_hex_pairs] cuts the text without its blanks into pieces of
    two characters that together give that text again, when its length
    is even; when it is odd there is no piece at all. *)
Theorem split_hex_pairs_round_trip (value : text) :
  Forall (fun t => length t = 2%nat) (_split_hex_pairs value)
  /\ (if Nat.even (length (remove_char space value))
      then concat (_split_hex_pairs value) = remove_char space value
      else _split_hex_pairs value = []).
Proof.
  unfold _split_hex_pairs.
  destruct (Nat.even (length (remove_char space value))) eqn:E; simpl.
  - split; [by apply pairs_of_length | apply pairs_of_concat].
  - by split.
Qed.

Lemma rev_cons_nonempty (x : ascii) (cur : text) : rev (x :: cur) <> [].
Proof. simpl. by destruct (rev cur). Qed.

Lemma split_ws_aux_tokens (P : ascii -> Prop) (s : text) : forall cur,
  Forall (fun c => isspace c = false -> P c) s -> Forall P cur ->
  Forall (fun t => t <> [] /\ Forall P t) (split_ws_aux cur s).
Proof.
  induction s as [|c s IH]; intros cur Hs Hcur; simpl.
  - destruct cur as [|x cur]; [done|]. apply Forall_singleton.
    split; [apply rev_cons_nonempty | by apply List.Forall_rev].
  - apply Forall_cons in Hs as [Hc Hs]. destruct (isspace c) eqn:E.
    + destruct cur as [|x cur]; [by apply IH|].
      apply Forall_cons. split; [|by apply IH].
      split; [apply rev_cons_nonempty | by apply List.Forall_rev].
    + apply IH; [done|]. apply Forall_cons. split; [by apply Hc | done].
Qed.

Lemma hex_upper_digit c :
  is_hex_upper c = true ->
  eqc c "-"%char = false /\ eqc c "+"%char = false
  /\ eqc c "x"%char = false /\ eqc c "X"%char = false
  /\ eqc c underscore = false
  /\ exists d, digit_value c = Some d /\ 0 <= d < 16.
Proof.
  assert (Hb : forallb (fun c =>
             negb (is_hex_upper c)
             || (negb (eqc c "-"%char) && negb (eqc c "+"%char)
                 && negb (eqc c "x"%char) && negb (eqc c "X"%char)
                 && negb (eqc c underscore)
                 && match digit_value c with
                    | Some d => (0 <=? d) && (d <? 16)
                    | None => false
                    end)) all_ascii = true)
    by (vm_compute; reflexivity).
  rewrite forallb_forall in Hb. specialize (Hb c (in_all_ascii c)).
  intros Hhex. rewrite Hhex in Hb. simpl in Hb.
  repeat (apply andb_prop in Hb as [Hb ?]).
  repeat split; try by apply negb_true_iff.
  destruct (digit_value c) as [d|]; [|done]. exists d. split; [done|]. lia.
Qed.

Lemma hex_line_char_facts c :
  hex_line_char c = true ->
  (isspace c = false -> is_hex_upper c = true)
  /\ (eqc c space = false -> is_hex_upper c = true)
  /\ eqc "S"%char c = false.
Proof.
  assert (Hb : forallb (fun c =>
             negb (hex_line_char c)
             || ((isspace c || is_hex_upper c)
                 && (eqc c space || is_hex_upper c)
                 && negb (eqc "S"%char c))) all_ascii = true)
    by (vm_compute; reflexivity).
  rewrite forallb_forall in Hb. specialize (Hb c (in_all_ascii c)).
  intros Hhex. rewrite Hhex in Hb. simpl in Hb.
  apply andb_prop in Hb as [Hb H3]. apply andb_prop in Hb as [H1 H2].
  repeat split.
  - intros E. by rewrite E in H1.
  - intros E. by rewrite E in H2.
  - by apply negb_true_iff.
Qed.

Lemma int_digits_hex (s : text) : forall prev acc,
  Forall (fun c => is_hex_upper c = true) s ->
  ((s <> []) \/ (exists p, prev = Some p /\ eqc p underscore = false)) ->
  0 <= acc ->
  exists v, int_digits 16 prev acc s = Some v
            /\ acc * 16 ^ Z.of_nat (length s) <= v
               < (acc + 1) * 16 ^ Z.of_nat (length s).
Proof.
  induction s as [|c s IH]; intros prev acc Hs Hne Hacc.
  - destruct Hne as [?|(p & -> & Hp)]; [done|]. simpl. rewrite Hp.
    exists acc. split; [done|]. lia.
  - apply Forall_cons in Hs as [Hc Hs].
    destruct (hex_upper_digit c Hc) as (_ & _ & _ & _ & Hu & d & Hd & Hd16).
    cbn [int_digits]. rewrite Hu, Hd.
    assert ((d <? 16) = true) as -> by lia.
    destruct (IH (Some c) (acc * 16 + d) Hs) as (v & Hv & Hb);
      [right; eauto | lia |].
    exists v. split; [done|].
    cbn [length]. rewrite Nat2Z.inj_succ, Z.pow_succ_r by lia.
    assert (0 < 16 ^ Z.of_nat (length s)) by (apply Z.pow_pos_nonneg; lia).
    nia.
Qed.

(** A token of upper-case hexadecimal digits is a number for [int]. *)
Lemma py_int_hex (t : text) :
  t <> [] -> Forall (fun c => is_hex_upper c = true) t ->
  exists v, py_int 16 t = Some v /\ 0 <= v < 16 ^ Z.of_nat (length t).
Proof.
  intros Hne Ht. unfold py_int.
  rewrite strip_id.
  2:{ intros c Hc. destruct t as [|x t]; [done|]. simpl in Hc.
      injection Hc as ->.
      apply Forall_cons in Ht as [Hx _]. by apply is_hex_upper_facts. }
  2:{ intros c Hc. apply last_Some in Hc as [t' ->].
      apply Forall_app in Ht as [_ Hx]. rewrite Forall_singleton in Hx.
      by apply is_hex_upper_facts. }
  destruct t as [|c r]; [done|].
  pose proof Ht as Ht'. apply Forall_cons in Ht' as [Hc Hr].
  destruct (hex_upper_digit c Hc) as (-> & -> & _).
  assert (skip_prefix 16 (c :: r) = c :: r) as ->.
  { destruct r as [|x r]; [done|]. apply Forall_cons in Hr as [Hx _].
    destruct (hex_upper_digit x Hx) as (_ & _ & Hx1 & Hx2 & _).
    unfold skip_prefix. rewrite Hx1, Hx2. simpl orb.
    by rewrite andb_false_r. }
  destruct (int_digits_hex (c :: r) None 0 Ht) as (v & Hv & Hb);
    [by left | lia |].
  exists v. split; [done|]. lia.
Qed.

Lemma ints16_hex (ts : list text) :
  Forall (fun t => t <> [] /\ Forall (fun c => is_hex_upper c = true) t) ts ->
  exists vs, ints16 ts = Some vs /\ length vs = length ts
    /\ Forall (fun v => 0 <= v) vs
    /\ (Forall (fun t => length t = 2%nat) ts -> Forall (fun v => v <= 255) vs).
Proof.
  induction 1 as [|t ts [Hne Ht] Hts (vs & Hvs & Hlen & Hpos & Hsmall)].
  - exists []. by repeat split.
  - destruct (py_int_hex t Hne Ht) as (v & Hv & Hb).
    exists (v :: vs). simpl. rewrite Hv, Hvs. simpl.
    split; [done|]. split; [by rewrite Hlen|].
    split; [apply Forall_cons; split; [lia | done]|].
    intros H2. apply Forall_cons in H2 as [H2 H2'].
    apply Forall_cons. split; [|by apply Hsmall].
    rewrite H2 in Hb. change (16 ^ Z.of_nat 2) with 256 in Hb. lia.
Qed.

(** The tokens of a line of the class [[0-9A-F ]]: no empty one, digits
    only, and two digits each when the line has no blank. *)
Lemma hex_line_tokens (line : text) :
  forallb hex_line_char line = true ->
  Forall (fun t => t <> [] /\ Forall (fun c => is_hex_upper c = true) t)
    (tokens_of line)
  /\ (contains space line = false ->
      Forall (fun t => length t = 2%nat) (tokens_of line)).
Proof.
  intros Hhex. rewrite forallb_forall in Hhex. unfold tokens_of.
  destruct (contains space line) eqn:Hsp.
  - split; [|done]. apply split_ws_aux_tokens; [|done].
    apply Forall_forall. intros c Hc Hns.
    apply list_elem_of_In in Hc.
    destruct (hex_line_char_facts c (Hhex c Hc)) as (H1 & _). by apply H1.
  - unfold _split_hex_pairs.
    destruct (Nat.even (length (remove_char space line))) eqn:E; simpl;
      [|by split].
    pose proof (pairs_of_length _ E) as Hlen.
    split; [|done].
    assert (Forall (Forall (fun c => is_hex_upper c = true))
              (pairs_of (remove_char space line))) as Hch.
    { apply Forall_concat. rewrite pairs_of_concat.
      apply Forall_forall. intros c Hc. apply list_elem_of_In in Hc.
      unfold remove_char in Hc. apply filter_In in Hc as [Hc Hne].
      apply negb_true_iff in Hne.
      destruct (hex_line_char_facts c (Hhex c Hc)) as (_ & H2 & _).
      by apply H2. }
    rewrite Forall_forall in Hlen, Hch. apply Forall_forall.
    intros t Ht. split; [|by apply Hch].
    specialize (Hlen t Ht). by destruct t.
Qed.

Lemma scan_line_some em ep cu raw payload :
  scan_line em ep cu raw = Some payload ->
  forallb hex_line_char (normal_line raw) = true
  /\ exists t0 t1 rest,
       tokens_of (normal_line raw) = t0 :: t1 :: rest
       /\ ints16 rest = Some payload.
Proof.
  unfold scan_line. cbv zeta. fold (normal_line raw).
  fold (tokens_of (normal_line raw)).
  intros H.
  destruct (_ || _ || _); [done|]. destruct (existsb _ _); [done|].
  destruct (HEX_LINE_RE_fullmatch (normal_line raw)) eqn:Hre; [|done].
  simpl in H. split.
  { unfold HEX_LINE_RE_fullmatch in Hre. by destruct (normal_line raw). }
  destruct (tokens_of (normal_line raw)) as [|t0 [|t1 rest]]; try done.
  simpl in H. exists t0, t1, rest. split; [done|].
  by destruct (negb (eqt t0 em) || negb (eqt t1 ep)).
Qed.

(** X14: once a line passes the class [[0-9A-F ]], is no echo of the
    command and starts with the expected two tokens, the loop body returns
    a payload with one value for every further token, none negative:
    the conversion of the tokens never fails, and neither a control line
    nor the SEARCHING notice gets as far. *)
Theorem scan_line_accepts (em ep cu raw : text) (rest : list text) :
  HEX_LINE_RE_fullmatch (normal_line raw) = true ->
  normal_line raw <> cu ->
  tokens_of (normal_line raw) = em :: ep :: rest ->
  exists payload,
    scan_line em ep cu raw = Some payload
    /\ length payload = length rest
    /\ Forall (fun v => 0 <= v) payload.
Proof.
  intros Hre Hcu Htok.
  assert (Hhex : forallb hex_line_char (normal_line raw) = true).
  { unfold HEX_LINE_RE_fullmatch in Hre. by destruct (normal_line raw). }
  destruct (hex_line_tokens _ Hhex) as [Hgood _]. rewrite Htok in Hgood.
  apply Forall_cons in Hgood as [_ Hgood].
  apply Forall_cons in Hgood as [_ Hgood].
  destruct (ints16_hex rest Hgood) as (vs & Hvs & Hlen & Hpos & _).
  exists vs. split; [|done].
  unfold scan_line. cbv zeta. fold (normal_line raw).
  fold (tokens_of (normal_line raw)).
  rewrite (not_control _ Hhex), Hre, Htok.
  assert (eqt (normal_line raw) cu = false) as ->.
  { apply not_true_is_false. intros E. by apply eqt_eq in E. }
  assert (startswith (of_string "SEARCHING") (normal_line raw) = false) as ->.
  { destruct (normal_line raw) as [|c r] eqn:E; [done|].
    cbn [forallb] in Hhex. apply andb_prop in Hhex as [Hc _].
    apply hex_line_char_facts in Hc as (_ & _ & Hc).
    cbn [of_string list_ascii_of_string startswith]. by rewrite Hc. }
  destruct (normal_line raw) as [|c r]; [done|].
  cbn. assert (eqt em em = true) as -> by (by apply eqt_eq).
  assert (eqt ep ep = true) as -> by (by apply eqt_eq). done.
Qed.

Lemma first_return_some {A} (f : text -> option A) lines r :
  first_return f lines = Some r -> exists l, In l lines /\ f l = Some r.
Proof.
  induction lines as [|l ls IH]; [done|]. simpl.
  destruct (f l) eqn:E.
  - intros [= ->]. exists l. by split; [left|].
  - intros H. destruct (IH H) as (l' & Hin & Hl'). exists l'. by split; [right|].
Qed.

Lemma contains_false a (s : text) :
  contains a s = false <-> Forall (fun c => eqc a c = false) s.
Proof.
  unfold contains. induction s as [|c s IH]; simpl; [done|].
  rewrite orb_false_iff, IH, Forall_cons. done.
Qed.

Lemma split_on_chars (P : ascii -> Prop) sep (s : text) :
  Forall P s -> Forall (Forall P) (split_on sep s).
Proof.
  induction 1 as [|c s Hc Hs IH]; simpl.
  - by apply Forall_singleton.
  - destruct (eqc c sep); [by apply Forall_cons|].
    destruct (split_on sep s) as [|l ls]; [by repeat constructor|].
    apply Forall_cons in IH as [Hl Hls].
    apply Forall_cons. split; [by apply Forall_cons|done].
Qed.

Lemma lstrip_chars (P : ascii -> Prop) (s : text) :
  Forall P s -> Forall P (lstrip s).
Proof.
  induction 1 as [|c s Hc Hs IH]; simpl; [done|].
  destruct (isspace c); [done|]. by apply Forall_cons.
Qed.

Lemma strip_chars (P : ascii -> Prop) (s : text) :
  Forall P s -> Forall P (strip s).
Proof.
  intros H. unfold strip, rstrip.
  by apply List.Forall_rev, lstrip_chars, List.Forall_rev, lstrip_chars.
Qed.

Lemma upper_keeps_blank c : eqc space (upper_char c) = eqc space c.
Proof.
  assert (Hb : forallb (fun c =>
             Bool.eqb (eqc space (upper_char c)) (eqc space c)) all_ascii
           = true) by (vm_compute; reflexivity).
  rewrite forallb_forall in Hb. specialize (Hb c (in_all_ascii c)).
  by apply Bool.eqb_prop in Hb.
Qed.

(** No step from the response to the line a token is cut from brings in
    a blank. *)
Lemma line_no_space (response raw : text) :
  contains space response = false ->
  In raw (split_on LF (replace_char CR LF response)) ->
  contains space (normal_line raw) = false.
Proof.
  intros Hns Hin. apply contains_false in Hns. apply contains_false.
  assert (Forall (fun c => eqc space c = false) raw) as Hraw.
  { assert (Forall (fun c => eqc space c = false)
              (replace_char CR LF response)) as Hrep.
    { unfold replace_char. apply Forall_forall. intros c Hc.
      apply list_elem_of_In, in_map_iff in Hc as (c' & <- & Hc').
      destruct (eqc c' CR); [done|].
      rewrite Forall_forall in Hns. by apply Hns, list_elem_of_In. }
    apply (split_on_chars _ LF) in Hrep. rewrite Forall_forall in Hrep.
    by apply Hrep, list_elem_of_In. }
  apply (strip_chars _) in Hraw. unfold normal_line, remove_char, upper.
  apply Forall_forall. intros c Hc.
  apply list_elem_of_In, filter_In in Hc as [Hc _].
  apply in_map_iff in Hc as (c' & <- & Hc').
  rewrite upper_keeps_blank. rewrite Forall_forall in Hraw.
  by apply Hraw, list_elem_of_In.
Qed.

(** X15: whatever the command and the response, a payload that
    [parse_pid_bytes] returns holds no negative value; and when the
    response has no blank at all, every value is a byte. *)
Theorem parse_pid_bytes_payload_range (command response : text)
    (payload : list Z) :
  parse_pid_bytes command response = Ok (Some payload) ->
  Forall (fun v => 0 <= v) payload
  /\ (contains space response = false -> Forall (fun v => v <= 255) payload).
Proof.
  unfold parse_pid_bytes.
  destruct (py_int 16 (take 2 command)) as [mode|]; [|done].
  intros [= H]. apply first_return_some in H as (raw & Hin & Hscan).
  apply scan_line_some in Hscan as (Hhex & t0 & t1 & rest & Htok & Hints).
  destruct (hex_line_tokens _ Hhex) as [Hgood Hlen]. rewrite Htok in *.
  apply Forall_cons in Hgood as [_ Hgood].
  apply Forall_cons in Hgood as [_ Hgood].
  destruct (ints16_hex rest Hgood) as (vs & Hvs & _ & Hpos & Hsmall).
  rewrite Hvs in Hints. injection Hints as <-. split; [done|].
  intros Hns. apply Hsmall.
  specialize (Hlen (line_no_space _ _ Hns Hin)).
  apply Forall_cons in Hlen as [_ Hlen]. by apply Forall_cons in Hlen as [_ Hlen].
Qed.

Lemma lstrip_blank (s : text) :
  Forall (fun c => isspace c = true) s -> lstrip s = [].
Proof. induction 1 as [|c s Hc Hs IH]; simpl; [done|]. by rewrite Hc. Qed.

Lemma strip_blank (s : text) :
  Forall (fun c => isspace c = true) s -> strip s = [].
Proof. intros H. unfold strip, rstrip. by rewrite (lstrip_blank s H). Qed.

Lemma lstrip_keeps c (s : text) :
  In c s -> isspace c = false -> In c (lstrip s).
Proof.
  induction s as [|a s IH]; [done|]. simpl. intros [->|Hin] Hc.
  - rewrite Hc. by left.
  - destruct (isspace a); [by apply IH | by right].
Qed.

Lemma strip_keeps c (s : text) :
  In c s -> isspace c = false -> In c (strip s).
Proof.
  intros Hin Hc. unfold strip, rstrip. rewrite <- in_rev.
  apply lstrip_keeps; [|done]. rewrite <- in_rev. by apply lstrip_keeps.
Qed.

Lemma foreign_upper c :
  foreign c = true -> eqc (upper_char c) prompt = false.
Proof.
  assert (Hb : forallb (fun c =>
             negb (foreign c) || negb (eqc (upper_char c) prompt)) all_ascii
           = true) by (vm_compute; reflexivity).
  rewrite forallb_forall in Hb. specialize (Hb c (in_all_ascii c)).
  intros Hf. rewrite Hf in Hb. by apply negb_true_iff.
Qed.

(** A blank line, or one with a character foreign to data, is skipped. *)
Lemma scan_line_noise em ep cu (noise : text) :
  Forall (fun c => isspace c = true) noise
  \/ Exists (fun c => foreign c = true) noise ->
  scan_line em ep cu noise = None.
Proof.
  intros [Hb|Hf]; unfold scan_line; cbv zeta.
  - by rewrite (strip_blank _ Hb).
  - fold (normal_line noise).
    assert (HEX_LINE_RE_fullmatch (normal_line noise) = false) as ->.
    { apply Exists_exists in Hf as (c & Hin & Hc).
      pose proof (foreign_upper c Hc) as Hup.
      unfold foreign in Hc.
      apply andb_prop in Hc as [Hc _]. apply andb_prop in Hc as [Hc H3].
      apply andb_prop in Hc as [H1 H2]. apply negb_true_iff in H1, H3.
      unfold HEX_LINE_RE_fullmatch.
      destruct (normal_line noise) eqn:E; [done|]. rewrite <- E.
      apply not_true_is_false. intros Hall. rewrite forallb_forall in Hall.
      rewrite (Hall (upper_char c)) in H1; [done|].
      unfold normal_line, remove_char. apply filter_In. split.
      - unfold upper. apply in_map, strip_keeps; [|done].
        by apply list_elem_of_In.
      - by rewrite Hup. }
    cbn [negb]. by repeat case_match.
Qed.

(** X16: a line of the response that is blank, or holds an ASCII character
    foreign to data (a letter beyond F, a dot, a question mark, ...),
    changes nothing: with the line or without it, the parser gives the
    same. *)
Theorem parse_pid_bytes_skips_noise (command before after noise : text) :
  Forall plain noise ->
  Forall (fun c => isspace c = true) noise
  \/ Exists (fun c => foreign c = true) noise ->
  ends_line before -> starts_line after ->
  parse_pid_bytes command (before ++ noise ++ after)
  = parse_pid_bytes command (before ++ after).
Proof.
  intros Hp Hn Hb Ha. unfold parse_pid_bytes.
  destruct (py_int 16 (take 2 command)) as [mode|]; [|done].
  destruct (lines_around before after Hb Ha) as (L1 & L2 & Hlines).
  rewrite (Hlines noise Hp).
  change (before ++ after) with (before ++ [] ++ after).
  rewrite (Hlines [] (Forall_nil_2 _)).
  f_equal. rewrite !first_return_app. cbn [first_return].
  by rewrite scan_line_noise.
Qed.

(** *** The voltage reading *)

Lemma digit_cases c : is_digit c = true -> In c digits.
Proof.
  assert (Hb : forallb (fun c => negb (is_digit c) || existsb (eqc c) digits)
                 all_ascii = true) by (vm_compute; reflexivity).
  rewrite forallb_forall in Hb. specialize (Hb c (in_all_ascii c)).
  intros Hd. rewrite Hd in Hb. cbn [negb orb] in Hb.
  apply existsb_exists in Hb as (d & Hin & Heq). apply eqc_eq in Heq.
  by subst d.
Qed.

Lemma sep_cases c : is_sep c = true -> In c seps.
Proof.
  unfold is_sep. intros H. apply orb_prop in H as [H|H]; apply eqc_eq in H;
    subst c; simpl; tauto.
Qed.

Lemma volt_shapes a b p d1 d2 :
  is_digit a = true -> is_digit b = true -> is_sep p = true ->
  is_digit d1 = true -> is_digit d2 = true ->
  reading_ok [a] = true /\ reading_ok [a; b] = true
  /\ reading_ok [a; p; d1] = true /\ reading_ok [a; p; d1; d2] = true
  /\ reading_ok [a; b; p; d1] = true /\ reading_ok [a; b; p; d1; d2] = true.
Proof.
  assert (Hb : forallb (fun a => forallb (fun b => forallb (fun p =>
             forallb (fun d1 => forallb (fun d2 =>
               reading_ok [a] && reading_ok [a; b]
               && reading_ok [a; p; d1] && reading_ok [a; p; d1; d2]
               && reading_ok [a; b; p; d1] && reading_ok [a; b; p; d1; d2])
             digits) digits) seps) digits) digits = true)
    by (vm_compute; reflexivity).
  intros Ha Hb' Hp H1 H2.
  rewrite forallb_forall in Hb. specialize (Hb a (digit_cases a Ha)).
  rewrite forallb_forall in Hb. specialize (Hb b (digit_cases b Hb')).
  rewrite forallb_forall in Hb. specialize (Hb p (sep_cases p Hp)).
  rewrite forallb_forall in Hb. specialize (Hb d1 (digit_cases d1 H1)).
  rewrite forallb_forall in Hb. specialize (Hb d2 (digit_cases d2 H2)).
  repeat (apply andb_prop in Hb as [Hb ?]). by repeat split.
Qed.

Lemma volt_match_ok a (r : text) :
  is_digit a = true -> reading_ok (volt_match_here (a :: r)) = true.
Proof.
  intros Ha.
  assert (H0 : is_digit "0"%char = true) by done.
  assert (Hs : is_sep "."%char = true) by done.
  unfold volt_match_here.
  destruct r as [|x1 r]; [by apply (volt_shapes a "0" "." "0" "0")|].
  destruct (is_digit x1) eqn:E1.
  - destruct r as [|x2 [|x3 [|x4 r]]];
      try (by apply (volt_shapes a x1 "." "0" "0")).
    + destruct (is_sep x2) eqn:E2, (is_digit x3) eqn:E3; cbn;
        solve [ by apply (volt_shapes a x1 "." "0" "0")
              | by apply (volt_shapes a x1 x2 x3 "0") ].
    + destruct (is_sep x2) eqn:E2, (is_digit x3) eqn:E3,
               (is_digit x4) eqn:E4; cbn;
        solve [ by apply (volt_shapes a x1 "." "0" "0")
              | by apply (volt_shapes a x1 x2 x3 "0")
              | by apply (volt_shapes a x1 x2 x3 x4) ].
  - destruct r as [|x2 [|x3 r]];
      try (by apply (volt_shapes a "0" "." "0" "0")).
    + destruct (is_sep x1) eqn:E2, (is_digit x2) eqn:E3; cbn;
        solve [ by apply (volt_shapes a "0" "." "0" "0")
              | by apply (volt_shapes a "0" x1 x2 "0") ].
    + destruct (is_sep x1) eqn:E2, (is_digit x2) eqn:E3,
               (is_digit x3) eqn:E4; cbn;
        solve [ by apply (volt_shapes a "0" "." "0" "0")
              | by apply (volt_shapes a "0" x1 x2 "0")
              | by apply (volt_shapes a "0" x1 x2 x3) ].
Qed.

(** X17: [parse_voltage] gives no reading exactly when the response has no
    decimal digit; a reading is a number from 0 to 99.99.  The
    conversion of the matched text never fails. *)
Theorem parse_voltage_range (response : text) :
  match parse_voltage response with
  | Some v => existsb is_digit response = true /\ (0 <= v <= 99.99)%Q
  | None => existsb is_digit response = false
  end.
Proof.
  unfold parse_voltage.
  induction response as [|c r IH]; [done|]. cbn [VOLT_RE_search existsb].
  destruct (is_digit c) eqn:Hc; [|exact IH]. cbn [orb].
  pose proof (volt_match_ok c r Hc) as Hok. unfold reading_ok in Hok.
  destruct (py_float _) as [[q| |]|]; try done.
  apply andb_prop in Hok as [H1 H2]. apply Qle_bool_iff in H1, H2.
  by split.
Qed.

End ParserMore.

(** ** Poller: the connection phase *)

Section SessionMore.

Variable rx : nat -> read_event.
Variable clock : nat -> string.
Variable fuel : nat.

Lemma set_connected_updated_at store connected last_error now h :
  store_ok store h ->
  getitem (_snapshot store) "updated_at"
    (set_connected store connected last_error now h) = Some (VStr now).
Proof.
  intros (d & lm & Hd & _).
  rewrite (set_connected_stamped _ _ _ _ d) by done.
  unfold getitem. rewrite lookup_insert_eq. cbn. unfold stamped.
  by rewrite lookup_insert_eq.
Qed.

(** X18: the connection phase of a turn of [_run_obd] starts from a new
    client and stamps the store once.  When it ends in the inner loop,
    the store says connected without error and the adapter has been sent
    one or two bare carriage returns and the six setup commands.  When it
    ends in a reconnect, the store says disconnected with the text of
    what was raised, which is what the opening raised or a connection
    failure, and the client holds no socket. *)
Theorem obd_connect_guarded_outcome (settings : Settings)
    (store : TelemetryStore) (opened : result unit) (w w' : world)
    (r : after_tick) :
  store_ok store (w_heap w) ->
  obd_connect_guarded rx clock fuel settings store opened w = Some (r, w') ->
  store_ok store (w_heap w')
  /\ w_clock w' = S (w_clock w)
  /\ getitem (_snapshot store) "updated_at" (w_heap w')
     = Some (VStr (clock (w_clock w)))
  /\ match r with
     | NextTick =>
         getitem (_snapshot store) "connected" (w_heap w') = Some (VBool true)
         /\ getitem (_snapshot store) "last_error" (w_heap w') = Some VNone
         /\ exists k, (1 <= k <= 2)%nat
              /\ _writer (w_client w')
                 = Some (replicate k [CR] ++ map wire setup_commands)
     | Reconnect =>
         exists e,
           (opened = Err e \/ connection_failure e)
           /\ getitem (_snapshot store) "connected" (w_heap w')
              = Some (VBool false)
           /\ getitem (_snapshot store) "last_error" (w_heap w')
              = Some (VStr (str_exn e))
           /\ _writer (w_client w') = None
     end.
Proof.
  intros Hok. unfold obd_connect_guarded, bind, client_connect.
  cbn [w_client set_client].
  set (client := ELM327Client_init _ _).
  destruct (connect rx fuel opened client) as [[[[]|e] c]|] eqn:Hc; [| |done].
  - unfold store_set_connected. cbn. intros [= <- <-]. cbn.
    destruct (set_connected_metrics store true None (clock (w_clock w))
                (w_heap w) Hok) as (_ & Hconn & Herr).
    split; [by apply set_connected_store_ok|]. split; [done|].
    split; [by apply set_connected_updated_at|].
    split; [done|]. split; [done|].
    destruct opened as [u|e]; [|done].
    destruct (connect_effect rx _ _ _ _ _ Hc)
      as (k & j & Hk & _ & Hw & Hall & _).
    exists k. rewrite (Hall eq_refl) in Hw. split; [exact Hk|exact Hw].
  - unfold store_set_connected. cbn. intros [= <- <-]. cbn.
    destruct (set_connected_metrics store false (Some (str_exn e))
                (clock (w_clock w)) (w_heap w) Hok) as (_ & Hconn & Herr).
    split; [by apply set_connected_store_ok|]. split; [done|].
    split; [by apply set_connected_updated_at|].
    exists e.
    split.
    { destruct opened as [u|e0].
      - right.
        destruct (connect_effect rx _ _ _ _ _ Hc)
          as (k & j & _ & _ & _ & _ & Herr' & _).
        by apply Herr'.
      - left. unfold connect in Hc. by injection Hc as <- _. }
    split; [done|]. split; [done|].
    unfold close. by destruct (_writer c) eqn:E.
Qed.

End SessionMore.

(** ** Configuration: how a flag may be spelled *)

Section ConfigMore.

Variable environ : gmap string string.

Lemma lstrip_pad (pad s : text) :
  Forall (fun c => isspace c = true) pad -> lstrip (pad ++ s) = lstrip s.
Proof. induction 1 as [|c pad Hc _ IH]; simpl; [done|]. by rewrite Hc. Qed.

Lemma strip_padded (pad1 word pad2 : text) :
  Forall (fun c => isspace c = true) pad1 ->
  Forall (fun c => isspace c = true) pad2 ->
  Forall (fun c => isspace c = false) word ->
  strip (pad1 ++ word ++ pad2) = word.
Proof.
  intros H1 H2 Hw. unfold strip, rstrip. rewrite lstrip_pad by done.
  destruct word as [|c word].
  { simpl. rewrite (lstrip_blank pad2 H2). done. }
  rewrite (lstrip_id ((c :: word) ++ pad2)).
  2:{ intros c' Hc'. simpl in Hc'. injection Hc' as <-.
      by apply Forall_cons in Hw as [? _]. }
  rewrite rev_app_distr, lstrip_pad by (by apply List.Forall_rev).
  rewrite lstrip_id; [apply rev_involutive|].
  intros c'. rewrite head_rev. intros Hl. apply last_Some in Hl as [w' Hl].
  rewrite Hl in Hw. apply Forall_app in Hw as [_ Hw].
  by rewrite Forall_singleton in Hw.
Qed.

Lemma lower_keeps_space c : isspace (lower_char c) = isspace c.
Proof.
  assert (Hb : forallb (fun c =>
             Bool.eqb (isspace (lower_char c)) (isspace c)) all_ascii = true)
    by (vm_compute; reflexivity).
  rewrite forallb_forall in Hb. specialize (Hb c (in_all_ascii c)).
  by apply Bool.eqb_prop in Hb.
Qed.

(** X19: a flag is on when its variable holds one of the four words in any
    mix of upper and lower case, with any white space around it, whatever
    the default is. *)
Theorem read_bool_spelling (name value : string) (default : bool)
    (pad1 word pad2 : text) :
  environ !! name = Some value ->
  of_string value = pad1 ++ word ++ pad2 ->
  Forall (fun c => isspace c = true) pad1 ->
  Forall (fun c => isspace c = true) pad2 ->
  In (lower word) truthy ->
  _read_bool environ name default = true.
Proof.
  intros Hget Hval H1 H2 Hin. unfold _read_bool, getenv. rewrite Hget, Hval.
  assert (Forall (fun c => isspace c = false) word) as Hw.
  { assert (Forall (fun c => isspace c = false) (lower word)) as Hl.
    { unfold truthy in Hin. simpl in Hin.
      repeat (destruct Hin as [<-|Hin];
              [by repeat (apply Forall_cons; split; [done|])|]).
      done. }
    unfold lower in Hl. apply Forall_forall. intros c Hc.
    rewrite <- lower_keeps_space. rewrite Forall_forall in Hl.
    apply Hl. apply list_elem_of_In, in_map. by apply list_elem_of_In. }
  rewrite strip_padded by done.
  apply existsb_exists. exists (lower word). split; [done|]. by apply eqt_eq.
Qed.

End ConfigMore.

(** ** The further properties at concrete inputs *)


Lemma connect_outcome_witness :
  exists self',
    connect polite 1 (Ok tt) new_client = Some (Ok tt, self')
    /\ exists k, (1 <= k <= 2)%nat
         /\ _writer self' = Some (replicate k [CR] ++ map wire setup_commands)
         /\ is_Some (_reader self').
Proof.
  eexists. split; [vm_compute; reflexivity|].
  apply (connect_outcome polite 1 (Ok tt) new_client _ (Ok tt)).
  vm_compute. reflexivity.
Defined.

Lemma obd_tick_write_order_witness :
  match obd_tick (script good_tick) demo_clock 1 demo_store.1 demo_world with
  | Returns _ w' =>
      _writer (w_client w') = Some ([] ++ map wire tick_commands)
  | Raises _ w' =>
      exists k, (1 <= k <= 8)%nat
        /\ _writer (w_client w')
           = Some ([] ++ map wire (take k tick_commands))
  | Running => True
  end.
Proof.
  apply (obd_tick_write_order (script good_tick) demo_clock 1 demo_store.1
           demo_world []).
  reflexivity.
Defined.


Lemma update_metrics_twice_witness :
  exists h1 h2,
    update_metrics demo_store.1 {[ "rpm"%string := Some 1000%Q ]} true None
      "2026-01-01T00:00:00+00:00" demo_store.2 = Ok h1
    /\ update_metrics demo_store.1 {[ "speed_kmh"%string := Some 50%Q ]}
         false (Some "lost"%string) "2026-01-01T00:00:01+00:00" h1 = Ok h2
    /\ update_metrics demo_store.1
         ({[ "speed_kmh"%string := Some 50%Q ]}
          ∪ {[ "rpm"%string := Some 1000%Q ]})
         false (Some "lost"%string) "2026-01-01T00:00:01+00:00" demo_store.2
       = Ok h2.
Proof.
  apply (update_metrics_twice demo_store.1 demo_store.2).
  apply TelemetryStore_init_ok.
Defined.

Lemma update_metrics_unknown_only_witness :
  exists h',
    update_metrics demo_store.1 {[ "bogus"%string := Some 1%Q ]} true None
      "2026-01-01T00:00:00+00:00" demo_store.2 = Ok h'
    /\ metrics_of demo_store.1 h' = Some initial_metrics
    /\ getitem (_snapshot demo_store.1) "connected" h' = Some (VBool true)
    /\ getitem (_snapshot demo_store.1) "last_error" h'
       = Some (of_opt_str None)
    /\ getitem (_snapshot demo_store.1) "updated_at" h'
       = Some (VStr "2026-01-01T00:00:00+00:00").
Proof.
  apply (update_metrics_unknown_only demo_store.1 demo_store.2).
  - apply TelemetryStore_init_ok.
  - vm_compute. reflexivity.
  - intros key Hin Hdom. rewrite dom_singleton_L in Hin.
    apply elem_of_singleton in Hin. subst key.
    apply elem_of_dom in Hdom as [v Hv]. by vm_compute in Hv.
Defined.

Lemma api_health_reports_flag_witness :
  (exists h',
     api_health demo_store.1
       (set_connected demo_store.1 true None "2026-01-01T00:00:00+00:00"
          demo_store.2)
     = Some (Ok (health_answer true), h')
     /\ frame (set_connected demo_store.1 true None
                 "2026-01-01T00:00:00+00:00" demo_store.2) h')
  /\ exists h1 h',
       update_metrics demo_store.1 {[ "rpm"%string := Some 1000%Q ]} true None
         "2026-01-01T00:00:00+00:00" demo_store.2 = Ok h1
       /\ api_health demo_store.1 h1 = Some (Ok (health_answer true), h')
       /\ frame h1 h'.
Proof.
  apply (api_health_reports_flag demo_store.1 demo_store.2).
  apply TelemetryStore_init_ok.
Defined.

Lemma simulation_tick_fills_store_witness :
  exists h',
    simulation_tick flat_sin mid_draw demo_clock demo_store.1 0 0 demo_world
    = Returns ((0 + 0.15)%Q, (0 + 6)%nat)
        {| w_client := w_client demo_world; w_heap := h';
           w_clock := S (w_clock demo_world) |}
    /\ store_full demo_store.1 "192.168.0.10" 35000 h'
    /\ (forall key, key ∈ metric_keys ->
         exists q, get_metric demo_store.1 h' key = Some (VFloat q))
    /\ getitem (_snapshot demo_store.1) "connected" h' = Some (VBool true)
    /\ getitem (_snapshot demo_store.1) "last_error" h' = Some VNone.
Proof.
  apply (simulation_tick_fills_store flat_sin mid_draw demo_clock demo_store.1
           "192.168.0.10" 35000 0 0 demo_world).
  apply store_full_init.
Defined.

Lemma simulation_fuel_falls_witness :
  exists f1 f2,
    simulation_metrics flat_sin mid_draw 0 0 !! "fuel_level_pct"%string
    = Some (Some f1)
    /\ simulation_metrics flat_sin mid_draw 1460 6 !! "fuel_level_pct"%string
       = Some (Some f2)
    /\ (f2 <= f1)%Q
    /\ ((1460 <= 1460)%Q -> (f2 == 5)%Q).
Proof.
  apply (simulation_fuel_falls flat_sin mid_draw 0 1460 0 6).
  unfold Qle. simpl. lia.
Defined.

Lemma scan_line_accepts_witness :
  exists payload,
    scan_line (of_string "41") (of_string "0C") (of_string "010C")
      (of_string "41 0C 1A F8>") = Some payload
    /\ length payload = length [of_string "1A"; of_string "F8"]
    /\ Forall (fun v => 0 <= v) payload.
Proof.
  apply (scan_line_accepts (of_string "41") (of_string "0C")
           (of_string "010C") (of_string "41 0C 1A F8>")
           [of_string "1A"; of_string "F8"]).
  - vm_compute. reflexivity.
  - vm_compute. discriminate.
  - vm_compute. reflexivity.
Defined.

Lemma parse_pid_bytes_payload_range_witness :
  Forall (fun v => 0 <= v) [26; 248]
  /\ (contains space (of_string "410C1AF8>") = false ->
      Forall (fun v => v <= 255) [26; 248]).
Proof.
  apply (parse_pid_bytes_payload_range (of_string "010C")
           (of_string "410C1AF8>") [26; 248]).
  vm_compute. reflexivity.
Defined.

Lemma parse_pid_bytes_skips_noise_witness :
  parse_pid_bytes (of_string "010C")
    ([] ++ of_string "SEARCHING..." ++ CR :: of_string "41 0C 1A F8>")
  = parse_pid_bytes (of_string "010C")
      ([] ++ CR :: of_string "41 0C 1A F8>").
Proof.
  apply (parse_pid_bytes_skips_noise (of_string "010C") []
           (CR :: of_string "41 0C 1A F8>") (of_string "SEARCHING...")).
  - repeat (apply Forall_cons; split; [split; reflexivity|]). apply Forall_nil_2.
  - right. apply Exists_cons_hd. reflexivity.
  - by left.
  - right. exists CR, (of_string "41 0C 1A F8>"). split; [reflexivity|by left].
Defined.

Lemma obd_connect_guarded_outcome_witness :
  exists w',
    obd_connect_guarded polite demo_clock 1 (load_settings ∅) demo_store.1
      (Ok tt) demo_world = Some (NextTick, w')
    /\ store_ok demo_store.1 (w_heap w')
    /\ w_clock w' = S (w_clock demo_world)
    /\ getitem (_snapshot demo_store.1) "updated_at" (w_heap w')
       = Some (VStr (demo_clock (w_clock demo_world)))
    /\ getitem (_snapshot demo_store.1) "connected" (w_heap w')
       = Some (VBool true)
    /\ getitem (_snapshot demo_store.1) "last_error" (w_heap w') = Some VNone
    /\ exists k, (1 <= k <= 2)%nat
         /\ _writer (w_client w')
            = Some (replicate k [CR] ++ map wire setup_commands).
Proof.
  eexists. split; [vm_compute; reflexivity|].
  apply (obd_connect_guarded_outcome polite demo_clock 1 (load_settings ∅)
           demo_store.1 (Ok tt) demo_world _ NextTick).
  - apply TelemetryStore_init_ok.
  - vm_compute. reflexivity.
Defined.

Lemma read_bool_spelling_witness :
  _read_bool {[ "SIMULATE"%string := " Yes "%string ]} "SIMULATE" false = true.
Proof.
  apply (read_bool_spelling {[ "SIMULATE"%string := " Yes "%string ]}
           "SIMULATE" " Yes " false [space] (of_string "Yes") [space]).
  - vm_compute. reflexivity.
  - reflexivity.
  - by apply Forall_singleton.
  - by apply Forall_singleton.
  - right. right. left. reflexivity.
Defined.

Lemma api_state_fresh_each_call_witness :
  exists l1 h1 l2 h2,
    api_state demo_store.1 demo_store.2 = Some (VRef l1, h1)
    /\ api_state demo_store.1 h1 = Some (VRef l2, h2)
    /\ l1 <> l2 /\ l1 <> _snapshot demo_store.1
    /\ l2 <> _snapshot demo_store.1
    /\ same_value demo_store.2 (VRef (_snapshot demo_store.1)) h2 (VRef l1)
    /\ same_value demo_store.2 (VRef (_snapshot demo_store.1)) h2 (VRef l2)
    /\ frame demo_store.2 h2.
Proof.
  apply (api_state_fresh_each_call demo_store.1 demo_store.2).
  apply TelemetryStore_init_ok.
Defined.
